(** * Step tracking and power accrual: a shallow embedding

  The development follows the TypeScript sources:
  - [utils/powerCalculation]      the power formula;
  - [hooks/useStepTracking]       the pedometer session hook;
  - [services/storage]            the AsyncStorage-backed [StorageService];
  - [hooks/usePokemonPower]       the accrual hook that joins the two.

  JavaScript numbers are modelled by [Z]: every number the hooks handle is
  a step count, an entity id or a power level, all of them integers far
  below 2^53, where the double-precision operations used here
  ([+], [-], [Math.max], [/] followed by [Math.floor]) are exact.
  Console logging and alert dialogs carry no state and are left out. *)

From Stdlib Require Import ZArith QArith Qround Lia List Ascii String Sorted.
From Stdlib Require Import DecimalString DecimalZ DecimalPos.
From stdpp Require Import gmap strings list.
Import ListNotations.

Local Open Scope Z_scope.

(** ** utils/powerCalculation *)

Module Power.

Definition STEPS_PER_POWER_LEVEL : Z := 100.

(** [Math.floor(steps / STEPS_PER_POWER_LEVEL)]: a real division followed
    by a floor. *)
Definition calculatePowerLevelFromSteps (steps : Z) : Z :=
  Qfloor (inject_Z steps / inject_Z STEPS_PER_POWER_LEVEL)%Q.

End Power.

(** ** hooks/useStepTracking *)

Module Session.

(** What an awaited native call delivers: a value, or a rejection whose
    [message] is [Some m] when the thrown value is an [Error]. *)
Inductive os (A : Type) : Type :=
| Resolved (a : A)
| Rejected (message : option string).
Arguments Resolved {A} a.
Arguments Rejected {A} message.

(** [err instanceof Error ? err.message : 'Unknown error'] *)
Definition errorMessage (message : option string) : string :=
  match message with
  | Some m => m
  | None => "Unknown error"
  end.

(** The fields of a [PermissionResponse] the hook looks at; [None] stands
    for a field that fails the [typeof] test made on it. *)
Record PermissionResponse := {
  granted : option bool;
  status : option string;
  askAgain : option bool;
}.

(** The hook's [useState] cells and [useRef] cells. *)
Record Hook := {
  rawSteps : Z;
  isAvailable : bool;
  isTracking : bool;
  error : option string;
  hasPermission : bool;
  canAskAgain : bool;
  startDateRef : option Z;
  subscriptionRef : option nat;
  isInitializedRef : bool;
  availabilityCheckedRef : bool;
  pollIntervalRef : option nat;
  baselineRef : Z;
}.

Definition setRawSteps (v : Z) (h : Hook) : Hook :=
  {| rawSteps := v; isAvailable := isAvailable h; isTracking := isTracking h;
     error := error h; hasPermission := hasPermission h;
     canAskAgain := canAskAgain h; startDateRef := startDateRef h;
     subscriptionRef := subscriptionRef h;
     isInitializedRef := isInitializedRef h;
     availabilityCheckedRef := availabilityCheckedRef h;
     pollIntervalRef := pollIntervalRef h; baselineRef := baselineRef h |}.

Definition setIsAvailable (v : bool) (h : Hook) : Hook :=
  {| rawSteps := rawSteps h; isAvailable := v; isTracking := isTracking h;
     error := error h; hasPermission := hasPermission h;
     canAskAgain := canAskAgain h; startDateRef := startDateRef h;
     subscriptionRef := subscriptionRef h;
     isInitializedRef := isInitializedRef h;
     availabilityCheckedRef := availabilityCheckedRef h;
     pollIntervalRef := pollIntervalRef h; baselineRef := baselineRef h |}.

Definition setIsTracking (v : bool) (h : Hook) : Hook :=
  {| rawSteps := rawSteps h; isAvailable := isAvailable h; isTracking := v;
     error := error h; hasPermission := hasPermission h;
     canAskAgain := canAskAgain h; startDateRef := startDateRef h;
     subscriptionRef := subscriptionRef h;
     isInitializedRef := isInitializedRef h;
     availabilityCheckedRef := availabilityCheckedRef h;
     pollIntervalRef := pollIntervalRef h; baselineRef := baselineRef h |}.

Definition setError (v : option string) (h : Hook) : Hook :=
  {| rawSteps := rawSteps h; isAvailable := isAvailable h;
     isTracking := isTracking h; error := v;
     hasPermission := hasPermission h;
     canAskAgain := canAskAgain h; startDateRef := startDateRef h;
     subscriptionRef := subscriptionRef h;
     isInitializedRef := isInitializedRef h;
     availabilityCheckedRef := availabilityCheckedRef h;
     pollIntervalRef := pollIntervalRef h; baselineRef := baselineRef h |}.

Definition setHasPermission (v : bool) (h : Hook) : Hook :=
  {| rawSteps := rawSteps h; isAvailable := isAvailable h;
     isTracking := isTracking h; error := error h; hasPermission := v;
     canAskAgain := canAskAgain h; startDateRef := startDateRef h;
     subscriptionRef := subscriptionRef h;
     isInitializedRef := isInitializedRef h;
     availabilityCheckedRef := availabilityCheckedRef h;
     pollIntervalRef := pollIntervalRef h; baselineRef := baselineRef h |}.

Definition setCanAskAgain (v : bool) (h : Hook) : Hook :=
  {| rawSteps := rawSteps h; isAvailable := isAvailable h;
     isTracking := isTracking h; error := error h;
     hasPermission := hasPermission h;
     canAskAgain := v; startDateRef := startDateRef h;
     subscriptionRef := subscriptionRef h;
     isInitializedRef := isInitializedRef h;
     availabilityCheckedRef := availabilityCheckedRef h;
     pollIntervalRef := pollIntervalRef h; baselineRef := baselineRef h |}.

(** The assignments to the ref cells made when tracking begins
    ([startDateRef], [subscriptionRef], [pollIntervalRef],
    [isInitializedRef], [baselineRef]). *)
Definition setRefs (start : option Z) (sub poll : option nat)
    (initialized : bool) (baseline : Z) (h : Hook) : Hook :=
  {| rawSteps := rawSteps h; isAvailable := isAvailable h;
     isTracking := isTracking h; error := error h;
     hasPermission := hasPermission h;
     canAskAgain := canAskAgain h; startDateRef := start;
     subscriptionRef := sub;
     isInitializedRef := initialized;
     availabilityCheckedRef := availabilityCheckedRef h;
     pollIntervalRef := poll; baselineRef := baseline |}.

(** [const calculatedSteps = Math.max(rawSteps - baselineRef.current, 0)] *)
Definition calculatedSteps (h : Hook) : Z :=
  Z.max (rawSteps h - baselineRef h) 0.

(** *** Permission handling *)

Definition parsePermission (response : option PermissionResponse) : bool :=
  match response with
  | None => true
  | Some r =>
      match granted r with
      | Some g => g
      | None =>
          match status r with
          | Some s => String.eqb s "granted"
          | None => true
          end
      end
  end.

Definition lowerChar (c : ascii) : ascii :=
  let n := nat_of_ascii c in
  if ((65 <=? n) && (n <=? 90))%nat then ascii_of_nat (n + 32) else c.

Fixpoint toLowerCase (s : string) : string :=
  match s with
  | EmptyString => EmptyString
  | String c s' => String (lowerChar c) (toLowerCase s')
  end.

Fixpoint includes (needle s : string) : bool :=
  String.prefix needle s
  || match s with
     | EmptyString => false
     | String _ s' => includes needle s'
     end.

(** [error && error.toLowerCase().includes('permission')] *)
Definition mentionsPermission (e : option string) : bool :=
  match e with
  | Some m => includes "permission" (toLowerCase m)
  | None => false
  end.

(** [response && response.canAskAgain === false] *)
Definition cannotAskAgain (response : option PermissionResponse) : bool :=
  match response with
  | Some r => match askAgain r with Some false => true | _ => false end
  | None => false
  end.

(** The truth value of [response.canAskAgain]. *)
Definition mayAskAgain (response : option PermissionResponse) : bool :=
  match response with
  | Some r => match askAgain r with Some true => true | _ => false end
  | None => false
  end.

Definition updatePermissionState (response : option PermissionResponse)
    (h : Hook) : bool * Hook :=
  let granted := parsePermission response in
  let h1 := setHasPermission granted h in
  let h2 :=
    match response with
    | Some r =>
        match askAgain r with
        | Some b => setCanAskAgain b h1
        | None => h1
        end
    | None => h1
    end in
  let h3 :=
    if negb granted then
      if cannotAskAgain response then
        setError
          (Some "Permission denied. Please enable Motion & Fitness in Settings.")
          h2
      else setError (Some "Pedometer permission not granted") h2
    else if mentionsPermission (error h) then setError None h2
    else h2 in
  (granted, h3).

(** Which of the optional permission entry points the platform has:
    [typeof Pedometer.requestPermissionsAsync === 'function'] and the
    same test on [getPermissionsAsync]. *)
Record Platform := {
  hasRequestPermissionsAsync : bool;
  hasGetPermissionsAsync : bool;
}.

(** [requestPermission] from the point where
    [await Pedometer.requestPermissionsAsync()] settles with [r]. *)
Definition requestPermission_settled
    (r : os (option PermissionResponse)) (h : Hook) : bool * Hook :=
  match r with
  | Resolved response => updatePermissionState response h
  | Rejected _ =>
      (false,
       setHasPermission false
         (setError (Some "Unable to request pedometer permission") h))
  end.

Definition requestPermission (p : Platform)
    (r : os (option PermissionResponse)) (h : Hook) : bool * Hook :=
  if hasRequestPermissionsAsync p then requestPermission_settled r h
  else (true, setHasPermission true h).

(** [checkPermissionStatus]: [query] is what [getPermissionsAsync]
    settles with, [request] what [requestPermissionsAsync] settles with
    if the hook goes on to ask. *)
Definition checkPermissionStatus (p : Platform)
    (query request : os (option PermissionResponse)) (h : Hook)
    : bool * Hook :=
  if hasGetPermissionsAsync p then
    match query with
    | Resolved response =>
        let '(granted, h1) := updatePermissionState response h in
        if negb granted && mayAskAgain response
        then requestPermission p request h1
        else (granted, h1)
    | Rejected _ => (true, setCanAskAgain true (setHasPermission true h))
    end
  else (true, setCanAskAgain true (setHasPermission true h)).

(** *** The session and the JavaScript event loop

    The hook's callbacks run one at a time.  An [async] function runs up
    to its next [await] on a native call and is then parked until that
    call settles; meanwhile other callbacks run.  A configuration holds
    the hook's cells, the live native subscriptions and timers, and the
    parked continuations.  A state setter is taken to act at once, and a
    callback to see the cells as they are when it runs.  Subscribing,
    [remove], [setInterval] and [clearInterval] are taken not to throw. *)

Inductive Task :=
(** [startTracking] parked at [await Pedometer.isAvailableAsync()];
    [permissionSeen] is the [hasPermission] its closure captured. *)
| StartAwaitsAvailability (permissionSeen : bool)
(** [startTracking] parked inside [await requestPermission()]. *)
| StartAwaitsPermission
(** a poll parked at [await Pedometer.getStepCountAsync(start, end)]. *)
| PollAwaitsCount (start : Z).

Record Config := {
  hook : Hook;
  api : Platform;
  clock : Z;
  watchers : gset nat;
  intervals : gset nat;
  handles : nat;
  pending : list Task;
}.

Definition withHook (h : Hook) (c : Config) : Config :=
  {| hook := h; api := api c; clock := clock c; watchers := watchers c;
     intervals := intervals c; handles := handles c; pending := pending c |}.

Definition withPending (ts : list Task) (c : Config) : Config :=
  {| hook := hook c; api := api c; clock := clock c; watchers := watchers c;
     intervals := intervals c; handles := handles c; pending := ts |}.

Definition park (t : Task) (c : Config) : Config :=
  withPending (pending c ++ [t]) c.

(** The body of the [Pedometer.watchStepCount] callback. *)
Definition onStepUpdate (steps : Z) (h : Hook) : Hook :=
  setRawSteps steps h.

(** The poll callback from the point where [getStepCountAsync] settles. *)
Definition onPollSettled (r : os Z) (h : Hook) : Hook :=
  match r with
  | Resolved steps => if 0 <? steps then setRawSteps steps h else h
  | Rejected _ => h
  end.

(** The poll callback up to its [await]. *)
Definition onInterval (c : Config) : Config :=
  match startDateRef (hook c) with
  | Some start => park (PollAwaitsCount start) c
  | None => c
  end.

(** [startTracking], from [const startDate = new Date()] to the end of
    the [try] block: subscribe, start the poll timer, set the cells. *)
Definition beginTracking (c : Config) : Config :=
  let w := handles c in
  let t := S (handles c) in
  let h := setRefs (Some (clock c)) (Some w) (Some t) true 0 (hook c) in
  let h := setError None (setIsTracking true (setRawSteps 0 h)) in
  {| hook := h; api := api c; clock := clock c;
     watchers := {[w]} ∪ watchers c;
     intervals := {[t]} ∪ intervals c;
     handles := S (S (handles c)); pending := pending c |}.

(** [startTracking] up to its first [await]. *)
Definition startTracking (c : Config) : Config :=
  if isInitializedRef (hook c) then c
  else park (StartAwaitsAvailability (hasPermission (hook c))) c.

(** [startTracking] from the point where [isAvailableAsync] settles. *)
Definition startTracking_available (permissionSeen : bool) (r : os bool)
    (c : Config) : Config :=
  match r with
  | Rejected message =>
      withHook
        (setIsTracking false
           (setIsAvailable false
              (setError (Some (errorMessage message)) (hook c)))) c
  | Resolved available =>
      let c1 := withHook (setIsAvailable available (hook c)) c in
      if negb available then
        withHook
          (setError (Some "Pedometer is not available on this device")
             (hook c1)) c1
      else if permissionSeen then beginTracking c1
      else if hasRequestPermissionsAsync (api c1) then
        park StartAwaitsPermission c1
      else beginTracking (withHook (setHasPermission true (hook c1)) c1)
  end.

(** [startTracking] from the point where [requestPermission()] settles. *)
Definition startTracking_permission (r : os (option PermissionResponse))
    (c : Config) : Config :=
  let '(permissionGranted, h) := requestPermission_settled r (hook c) in
  if permissionGranted then beginTracking (withHook h c)
  else withHook (setError (Some "Pedometer permission not granted") h) c.

Definition stopTracking (c : Config) : Config :=
  if negb (isInitializedRef (hook c)) then c
  else
    let h := hook c in
    let ws :=
      match subscriptionRef h with
      | Some w => watchers c ∖ {[w]}
      | None => watchers c
      end in
    let ts :=
      match pollIntervalRef h with
      | Some t => intervals c ∖ {[t]}
      | None => intervals c
      end in
    {| hook := setIsTracking false
                 (setRefs (startDateRef h) None None false (baselineRef h) h);
       api := api c; clock := clock c; watchers := ws; intervals := ts;
       handles := handles c; pending := pending c |}.

(** [baselineRef.current = rawSteps] *)
Definition resetSteps (c : Config) : Config :=
  let h := hook c in
  withHook
    (setRefs (startDateRef h) (subscriptionRef h) (pollIntervalRef h)
       (isInitializedRef h) (rawSteps h) h) c.

(** What the two channels hand to the hook during tracking: a count
    pushed by the watcher, or the count a poll resolved with. *)
Inductive Update :=
| Pushed (steps : Z)
| Polled (steps : Z).

Definition deliver (u : Update) (h : Hook) : Hook :=
  match u with
  | Pushed steps => onStepUpdate steps h
  | Polled steps => onPollSettled (Resolved steps) h
  end.



Inductive Settlement :=
| Availability (r : os bool)
| Permission (r : os (option PermissionResponse))
| StepCount (r : os Z).

Inductive Event :=
| CallStartTracking
| CallStopTracking
| CallResetSteps
(** time passes *)
| Elapse (ms : Z)
(** the native watcher [w] reports a cumulative count *)
| Push (w : nat) (steps : Z)
(** the interval timer [t] fires *)
| Tick (t : nat)
(** the native call awaited by the [i]-th parked continuation settles *)
| Settle (i : nat) (s : Settlement).

Definition settle (i : nat) (s : Settlement) (c : Config) : Config :=
  match pending c !! i, s with
  | Some (StartAwaitsAvailability seen), Availability r =>
      startTracking_available seen r (withPending (delete i (pending c)) c)
  | Some StartAwaitsPermission, Permission r =>
      startTracking_permission r (withPending (delete i (pending c)) c)
  | Some (PollAwaitsCount _), StepCount r =>
      let c1 := withPending (delete i (pending c)) c in
      withHook (onPollSettled r (hook c1)) c1
  | _, _ => c
  end.

Definition step (e : Event) (c : Config) : Config :=
  match e with
  | CallStartTracking => startTracking c
  | CallStopTracking => stopTracking c
  | CallResetSteps => resetSteps c
  | Elapse ms =>
      {| hook := hook c; api := api c; clock := clock c + Z.max ms 0;
         watchers := watchers c; intervals := intervals c;
         handles := handles c; pending := pending c |}
  | Push w steps =>
      if bool_decide (w ∈ watchers c)
      then withHook (onStepUpdate steps (hook c)) c else c
  | Tick t =>
      if bool_decide (t ∈ intervals c) then onInterval c else c
  | Settle i s => settle i s c
  end.

Fixpoint run (es : list Event) (c : Config) : Config :=
  match es with
  | [] => c
  | e :: es' => run es' (step e c)
  end.

(** The hook as [useState]/[useRef] initialise it. *)
Definition mount (p : Platform) : Config :=
  {| hook := {| rawSteps := 0; isAvailable := false; isTracking := false;
                error := None; hasPermission := false; canAskAgain := true;
                startDateRef := None; subscriptionRef := None;
                isInitializedRef := false; availabilityCheckedRef := false;
                pollIntervalRef := None; baselineRef := 0 |};
     api := p; clock := 0; watchers := ∅; intervals := ∅; handles := 0%nat;
     pending := [] |}.

Definition setAvailabilityCheckedRef (v : bool) (h : Hook) : Hook :=
  {| rawSteps := rawSteps h; isAvailable := isAvailable h;
     isTracking := isTracking h; error := error h;
     hasPermission := hasPermission h;
     canAskAgain := canAskAgain h; startDateRef := startDateRef h;
     subscriptionRef := subscriptionRef h;
     isInitializedRef := isInitializedRef h;
     availabilityCheckedRef := v;
     pollIntervalRef := pollIntervalRef h; baselineRef := baselineRef h |}.

(** The mount effect [checkAvailability], given what its native calls
    settle with. *)
Definition checkAvailability (available : os bool)
    (query request : os (option PermissionResponse)) (c : Config)
    : Config :=
  let h := hook c in
  if availabilityCheckedRef h then c
  else
    match available with
    | Resolved a =>
        let h1 := setAvailabilityCheckedRef true (setIsAvailable a h) in
        if a then
          withHook (snd (checkPermissionStatus (api c) query request h1)) c
        else
          withHook
            (setError (Some "Pedometer is not available on this device") h1)
            c
    | Rejected message =>
        withHook
          (setIsAvailable false (setError (Some (errorMessage message)) h))
          c
    end.

Definition expo : Platform :=
  {| hasRequestPermissionsAsync := true; hasGetPermissionsAsync := true |}.

Definition grantedResponse : PermissionResponse :=
  {| granted := Some true; status := Some "granted"%string;
     askAgain := Some true |}.

(** The session after a mount effect that found the pedometer available
    and the permission granted. *)
Definition ready : Config :=
  checkAvailability (Resolved true) (Resolved (Some grantedResponse))
    (Rejected None) (mount expo).




(** The watcher and the timer an initialised session holds in its refs. *)
Definition heldWatchers (h : Hook) : gset nat :=
  match isInitializedRef h, subscriptionRef h with
  | true, Some w => {[w]}
  | _, _ => ∅
  end.

Definition heldIntervals (h : Hook) : gset nat :=
  match isInitializedRef h, pollIntervalRef h with
  | true, Some t => {[t]}
  | _, _ => ∅
  end.

(** Every live watcher and timer is the one the session holds. *)
Definition exclusive (c : Config) : Prop :=
  watchers c ⊆ heldWatchers (hook c) /\ intervals c ⊆ heldIntervals (hook c).

End Session.

(** ** services/storage *)

Module Storage.

Inductive StorageKey := POWER_LEVELS | STEP_PROGRESS.

(** A string held by AsyncStorage, told apart by what [JSON.parse] makes
    of it: the empty string, a text that does not parse, the text
    [null], or the serialisation of a [PokemonValueMap]. *)
Inductive Text :=
| EmptyText
| Malformed
| NullText
| ObjectText (m : gmap Z Z).

(** The values [JSON.parse] can return on those texts. *)
Inductive Value :=
| Null
| Object (m : gmap Z Z).

Inductive Exn := NativeError | SyntaxError | TypeError.

Inductive Outcome (A : Type) : Type :=
| Returned (a : A)
| Threw (e : Exn).
Arguments Returned {A} a.
Arguments Threw {A} e.

Record Store := {
  powerLevels : option Text;
  stepProgress : option Text;
}.

(** The device: what is stored, and for each native AsyncStorage call
    still to come whether it will reject ([true]); calls beyond the
    schedule succeed. *)
Record World := {
  store : Store;
  faults : list bool;
}.

(** Code that may read and write the device and may throw; what was
    written before a throw stays written. *)
Definition M (A : Type) : Type := World -> Outcome A * World.

Definition ret {A} (a : A) : M A := fun w => (Returned a, w).

Definition throw {A} (e : Exn) : M A := fun w => (Threw e, w).

Definition bind {A B} (c : M A) (k : A -> M B) : M B :=
  fun w =>
    match c w with
    | (Returned a, w1) => k a w1
    | (Threw e, w1) => (Threw e, w1)
    end.

Definition tryCatch {A} (c : M A) (handler : Exn -> M A) : M A :=
  fun w =>
    match c w with
    | (Returned a, w1) => (Returned a, w1)
    | (Threw e, w1) => handler e w1
    end.

Declare Scope storage_scope.
Delimit Scope storage_scope with storage.
Notation "x <- c ;; k" := (bind c (fun x => k))
  (at level 100, c at next level, right associativity) : storage_scope.
Notation "c ;;; k" := (bind c (fun _ => k))
  (at level 100, right associativity) : storage_scope.
Local Open Scope storage_scope.

Definition cell (k : StorageKey) (s : Store) : option Text :=
  match k with
  | POWER_LEVELS => powerLevels s
  | STEP_PROGRESS => stepProgress s
  end.

Definition write (k : StorageKey) (t : option Text) (s : Store) : Store :=
  match k with
  | POWER_LEVELS => {| powerLevels := t; stepProgress := stepProgress s |}
  | STEP_PROGRESS => {| powerLevels := powerLevels s; stepProgress := t |}
  end.

(** One native call: it takes the next entry of the fault schedule. *)
Definition native : M unit :=
  fun w =>
    match faults w with
    | [] => (Returned tt, w)
    | false :: fs => (Returned tt, {| store := store w; faults := fs |})
    | true :: fs => (Threw NativeError, {| store := store w; faults := fs |})
    end.

Definition getItem (k : StorageKey) : M (option Text) :=
  native ;;; fun w => (Returned (cell k (store w)), w).

Definition setItem (k : StorageKey) (t : Text) : M unit :=
  native ;;;
  fun w => (Returned tt,
            {| store := write k (Some t) (store w); faults := faults w |}).

Definition removeItem (k : StorageKey) : M unit :=
  native ;;;
  fun w => (Returned tt,
            {| store := write k None (store w); faults := faults w |}).

Definition JSON_parse (t : Text) : M Value :=
  match t with
  | EmptyText | Malformed => throw SyntaxError
  | NullText => ret Null
  | ObjectText m => ret (Object m)
  end.

Definition JSON_stringify (v : Value) : Text :=
  match v with
  | Null => NullText
  | Object m => ObjectText m
  end.

(** The truth value of [data] in [data ? JSON.parse(data) : {}]: [null]
    and the empty string are falsy. *)
Definition truthy (data : option Text) : option Text :=
  match data with
  | None | Some EmptyText => None
  | Some t => Some t
  end.

(** [v[id]]: reading a property of [null] throws. *)
Definition getMember (v : Value) (id : Z) : M (option Z) :=
  match v with
  | Null => throw TypeError
  | Object m => ret (m !! id)
  end.

(** [v[id] = x] *)
Definition setMember (v : Value) (id x : Z) : M Value :=
  match v with
  | Null => throw TypeError
  | Object m => ret (Object (<[id := x]> m))
  end.

(** [delete v[id]] *)
Definition deleteMember (v : Value) (id : Z) : M Value :=
  match v with
  | Null => throw TypeError
  | Object m => ret (Object (delete id m))
  end.

(** [x || 0]: [undefined] and [0] are falsy. *)
Definition orZero (x : option Z) : Z :=
  match x with
  | Some n => if n =? 0 then 0 else n
  | None => 0
  end.

Definition readMap (k : StorageKey) : M Value :=
  tryCatch
    (data <- getItem k ;;
     match truthy data with
     | Some t => JSON_parse t
     | None => ret (Object ∅)
     end)
    (fun _ => ret (Object ∅)).

Definition getPowerLevels : M Value := readMap POWER_LEVELS.

Definition savePowerLevel (pokemonId powerLevel : Z) : M unit :=
  tryCatch
    (levels <- getPowerLevels ;;
     levels' <- setMember levels pokemonId powerLevel ;;
     setItem POWER_LEVELS (JSON_stringify levels'))
    (fun _ => ret tt).

Definition getPowerLevel (pokemonId : Z) : M Z :=
  levels <- getPowerLevels ;;
  x <- getMember levels pokemonId ;;
  ret (orZero x).

Definition getStepProgressMap : M Value := readMap STEP_PROGRESS.

Definition getStepProgress (pokemonId : Z) : M Z :=
  progress <- getStepProgressMap ;;
  x <- getMember progress pokemonId ;;
  ret (orZero x).

Definition saveStepProgress (pokemonId steps : Z) : M unit :=
  tryCatch
    (progress <- getStepProgressMap ;;
     progress' <- (if steps <=? 0 then deleteMember progress pokemonId
                   else setMember progress pokemonId steps) ;;
     setItem STEP_PROGRESS (JSON_stringify progress'))
    (fun _ => ret tt).

Definition clearAll : M unit :=
  tryCatch
    (removeItem POWER_LEVELS ;;; removeItem STEP_PROGRESS)
    (fun _ => ret tt).

(** The persisted entry of an entity under a key, if the stored text
    holds one. *)
Definition entry (k : StorageKey) (id : Z) (s : Store) : option Z :=
  match cell k s with
  | Some (ObjectText m) => m !! id
  | _ => None
  end.

(** Every step count the store holds is strictly positive. *)
Definition sparse (s : Store) : Prop :=
  forall (id v : Z), entry STEP_PROGRESS id s = Some v -> 0 < v.

(** The service's methods, as calls made one after the other on a device. *)
Inductive Call :=
| GetPowerLevels
| SavePowerLevel (pokemonId powerLevel : Z)
| GetPowerLevel (pokemonId : Z)
| GetStepProgressMap
| GetStepProgress (pokemonId : Z)
| SaveStepProgress (pokemonId steps : Z)
| ClearAll.

Definition call (c : Call) (w : World) : World :=
  match c with
  | GetPowerLevels => snd (getPowerLevels w)
  | SavePowerLevel id level => snd (savePowerLevel id level w)
  | GetPowerLevel id => snd (getPowerLevel id w)
  | GetStepProgressMap => snd (getStepProgressMap w)
  | GetStepProgress id => snd (getStepProgress id w)
  | SaveStepProgress id steps => snd (saveStepProgress id steps w)
  | ClearAll => snd (clearAll w)
  end.

Fixpoint calls (cs : list Call) (w : World) : World :=
  match cs with
  | [] => w
  | c :: cs' => calls cs' (call c w)
  end.

(** A device on which nothing has been stored yet. *)
Definition fresh (fs : list bool) : World :=
  {| store := {| powerLevels := None; stepProgress := None |}; faults := fs |}.

End Storage.

(** ** hooks/usePokemonPower *)

Module PokemonPower.
Import Power Storage.
Local Open Scope storage_scope.

(** The hook's cells, with the [useStepTracking(false)] instance it owns.
    [pokemon] is the id of the entity shown, if any. *)
Record Hook := {
  pokemon : option Z;
  basePowerLevel : Z;
  isLoading : bool;
  storedSteps : Z;
  trackingStartedRef : option Z;
  tracker : Session.Config;
}.

Definition setLoaded (power steps : Z) (h : Hook) : Hook :=
  {| pokemon := pokemon h; basePowerLevel := power; isLoading := isLoading h;
     storedSteps := steps; trackingStartedRef := trackingStartedRef h;
     tracker := tracker h |}.

Definition setIsLoading (v : bool) (h : Hook) : Hook :=
  {| pokemon := pokemon h; basePowerLevel := basePowerLevel h;
     isLoading := v; storedSteps := storedSteps h;
     trackingStartedRef := trackingStartedRef h; tracker := tracker h |}.

Definition setTracking (started : option Z) (t : Session.Config)
    (h : Hook) : Hook :=
  {| pokemon := pokemon h; basePowerLevel := basePowerLevel h;
     isLoading := isLoading h; storedSteps := storedSteps h;
     trackingStartedRef := started; tracker := t |}.

(** [steps], as destructured from [useStepTracking]. *)
Definition steps (h : Hook) : Z :=
  Session.calculatedSteps (Session.hook (tracker h)).

Definition totalSteps (h : Hook) : Z := storedSteps h + steps h.

Definition stepsFromPower (h : Hook) : Z :=
  calculatePowerLevelFromSteps (totalSteps h).

Definition totalPowerLevel (h : Hook) : Z :=
  basePowerLevel h + stepsFromPower h.

(** [loadPowerLevel]; the value returned is the hook after the call. *)
Definition loadPowerLevel (h : Hook) : M Hook :=
  match pokemon h with
  | None => ret (setIsLoading false h)
  | Some id =>
      h' <- tryCatch
              (storedPower <- getPowerLevel id ;;
               storedStepProgress <- getStepProgress id ;;
               ret (setLoaded storedPower storedStepProgress h))
              (fun _ => ret (setLoaded 0 0 h)) ;;
      ret (setIsLoading false h')
  end.

(** The effect on [[pokemon?.id, totalSteps]]. *)
Definition persistSteps (h : Hook) : M unit :=
  match pokemon h with
  | None => ret tt
  | Some id => saveStepProgress id (totalSteps h)
  end.

Definition refreshPower (h : Hook) : M unit :=
  match pokemon h with
  | None => ret tt
  | Some id =>
      savePowerLevel id (totalPowerLevel h) ;;;
      saveStepProgress id (totalSteps h)
  end.

(** The effect that starts tracking once per entity. *)
Definition autoTrack (h : Hook) : Hook :=
  let s := Session.hook (tracker h) in
  match pokemon h with
  | None => h
  | Some id =>
      let h1 :=
        if negb (Session.isTracking s) && Session.isAvailable s
           && Session.hasPermission s
           && negb (bool_decide (trackingStartedRef h = Some id))
        then setTracking (Some id) (Session.startTracking (tracker h)) h
        else h in
      match trackingStartedRef h1 with
      | Some started =>
          if bool_decide (started = id) then h1
          else setTracking None (tracker h1) h1
      | None => h1
      end
  end.

(** Everything that can happen to a mounted hook. *)
Inductive Op :=
| Load
| PersistSteps
| AutoTrack
| RefreshPower
| Sensor (e : Session.Event).


(** The hook as mounted for [pokemon]. *)
Definition mount (pokemon : option Z) (p : Session.Platform) : Hook :=
  {| pokemon := pokemon; basePowerLevel := 0; isLoading := true;
     storedSteps := 0; trackingStartedRef := None;
     tracker := Session.mount p |}.

End PokemonPower.

(** ** services/pokemonApi *)

Module Api.

Definition BASE_URL : string := "https://pokeapi.co/api/v2".

(** What a template literal makes of an integer: its decimal digits, with
    a minus sign when negative. *)
Definition numberToString (n : Z) : string :=
  DecimalString.NilEmpty.string_of_int (Z.to_int n).

Definition getPokemonListUrl (limit offset : Z) : string :=
  BASE_URL ++ "/pokemon?limit=" ++ numberToString limit
    ++ "&offset=" ++ numberToString offset.

Definition getPokemonByIdUrl (id : Z) : string :=
  BASE_URL ++ "/pokemon/" ++ numberToString id.

Definition getPokemonByNameUrl (name : string) : string :=
  BASE_URL ++ "/pokemon/" ++ Session.toLowerCase name.

(** [\d] *)
Definition isDigit (c : ascii) : bool :=
  let n := nat_of_ascii c in ((48 <=? n) && (n <=? 57))%nat.

(** The longest run of digits at the head of a string, and what follows. *)
Fixpoint takeDigits (s : string) : string * string :=
  match s with
  | EmptyString => (EmptyString, EmptyString)
  | String c s' =>
      if isDigit c then
        let '(ds, rest) := takeDigits s' in (String c ds, rest)
      else (EmptyString, s)
  end.

(** [s] without its prefix [p], if it has that prefix. *)
Fixpoint afterPrefix (p s : string) : option string :=
  match p, s with
  | EmptyString, _ => Some s
  | String a p', String b s' =>
      if Ascii.eqb a b then afterPrefix p' s' else None
  | String _ _, EmptyString => None
  end.

(** A match of [/\/pokemon\/(\d+)\//] starting at the head of [s]: the
    group it captures.  The greedy [\d+] takes the whole run of digits;
    giving digits back cannot help, since what then follows is a digit and
    not the slash. *)
Definition matchAt (s : string) : option string :=
  match afterPrefix "/pokemon/" s with
  | Some rest =>
      match takeDigits rest with
      | (String d ds, String "/" _) => Some (String d ds)
      | _ => None
      end
  | None => None
  end.

(** [url.match(...)]: the leftmost match. *)
Fixpoint firstMatch (s : string) : option string :=
  match matchAt s with
  | Some ds => Some ds
  | None =>
      match s with
      | EmptyString => None
      | String _ s' => firstMatch s'
      end
  end.

(** [parseInt(ds, 10)] on a string of decimal digits, as the captured
    group is. *)
Definition parseInt (ds : string) : Z :=
  match DecimalString.NilEmpty.uint_of_string ds with
  | Some d => Z.of_uint d
  | None => 0
  end.

Definition extractPokemonIdFromUrl (url : string) : Z :=
  match firstMatch url with
  | Some ds => parseInt ds
  | None => 0
  end.




End Api.

(** ** modules/StepTrackerModule *)

Module StepTracker.

(** What the native emitter hands to the [onStepUpdate] handler. *)
Inductive Data :=
(** a number *)
| Count (steps : Z)
(** a non-null object: whether its [error] is truthy, and its [steps] if
    that is a number *)
| Payload (error : bool) (steps : option Z)
(** anything else *)
| Other.

(** The class instance together with the native emitter: the registered
    callbacks (by name), the subscription held, and the handles of the
    listeners the emitter has. *)
Record Tracker := {
  stepUpdateListeners : list nat;
  eventEmitter : bool;
  subscription : option nat;
  emitterListeners : list nat;
  handles : nat;
}.

(** [new StepTrackerModuleClass()], with or without the native module. *)
Definition create (nativeModule : bool) : Tracker :=
  {| stepUpdateListeners := []; eventEmitter := nativeModule;
     subscription := None; emitterListeners := []; handles := 0%nat |}.

Definition onStepUpdate (callback : nat) (t : Tracker) : Tracker :=
  if negb (eventEmitter t) then t
  else
    match subscription t with
    | Some _ =>
        {| stepUpdateListeners := stepUpdateListeners t ++ [callback];
           eventEmitter := eventEmitter t; subscription := subscription t;
           emitterListeners := emitterListeners t; handles := handles t |}
    | None =>
        {| stepUpdateListeners := stepUpdateListeners t ++ [callback];
           eventEmitter := eventEmitter t;
           subscription := Some (handles t);
           emitterListeners := emitterListeners t ++ [handles t];
           handles := S (handles t) |}
    end.

Definition removeStepUpdateListener (t : Tracker) : Tracker :=
  match subscription t with
  | Some h =>
      {| stepUpdateListeners := []; eventEmitter := eventEmitter t;
         subscription := None;
         emitterListeners := filter (fun x => x <> h) (emitterListeners t);
         handles := handles t |}
  | None =>
      {| stepUpdateListeners := []; eventEmitter := eventEmitter t;
         subscription := None; emitterListeners := emitterListeners t;
         handles := handles t |}
  end.

(** The count the handler extracts from the data, if it goes on to call
    the callbacks. *)
Definition extractSteps (d : Data) : option Z :=
  match d with
  | Count steps => Some steps
  | Payload true _ => None
  | Payload false steps => steps
  | Other => None
  end.

(** The handler registered with the emitter: the calls it makes, each a
    callback with the count it is given. *)
Definition handle (d : Data) (t : Tracker) : list (nat * Z) :=
  match extractSteps d with
  | Some steps => map (fun callback => (callback, steps)) (stepUpdateListeners t)
  | None => []
  end.

(** The emitter fires [onStepUpdate]: every listener it has runs. *)
Definition emit (d : Data) (t : Tracker) : list (nat * Z) :=
  flat_map (fun _ => handle d t) (emitterListeners t).

Inductive Op :=
| OnStepUpdate (callback : nat)
| RemoveStepUpdateListener.

Definition apply (o : Op) (t : Tracker) : Tracker :=
  match o with
  | OnStepUpdate callback => onStepUpdate callback t
  | RemoveStepUpdateListener => removeStepUpdateListener t
  end.

Fixpoint applyAll (os : list Op) (t : Tracker) : Tracker :=
  match os with
  | [] => t
  | o :: os' => applyAll os' (apply o t)
  end.

(** The callbacks registered since the last removal, in order. *)
Fixpoint registered (os : list Op) (acc : list nat) : list nat :=
  match os with
  | [] => acc
  | OnStepUpdate callback :: os' => registered os' (acc ++ [callback])
  | RemoveStepUpdateListener :: os' => registered os' []
  end.

End StepTracker.

(** ** screens/PokemonListScreen *)

Module ListScreen.

Record PokemonListItem := {
  name : string;
  url : string;
}.

(** The fields of a [PokemonListResponse] the screen reads. *)
Record PokemonListResponse := {
  results : list PokemonListItem;
  next : option string;
}.

Definition ITEMS_PER_PAGE : nat := 20.

(** A [getPokemonList] call the screen is waiting for. *)
Record Request := {
  isRefresh : bool;
  offset : nat;
}.

Record Screen := {
  pokemonList : list PokemonListItem;
  isLoading : bool;
  isRefreshing : bool;
  nextUrl : option string;
  error : option string;
  inFlight : list Request;
}.

(** The screen as [useState] initialises it. *)
Definition initial : Screen :=
  {| pokemonList := []; isLoading := true; isRefreshing := false;
     nextUrl := None; error := None; inFlight := [] |}.

(** [loadPokemonList] up to [await pokemonApi.getPokemonList(...)]. *)
Definition loadPokemonList (refresh : bool) (s : Screen) : Screen :=
  {| pokemonList := pokemonList s;
     isLoading := if refresh then isLoading s else true;
     isRefreshing := if refresh then true else isRefreshing s;
     nextUrl := nextUrl s; error := None;
     inFlight :=
       inFlight s
       ++ [{| isRefresh := refresh;
              offset := if refresh then 0%nat else length (pokemonList s) |}]
  |}.

(** [err instanceof Error ? err.message : 'Failed to load Pokemon'] *)
Definition failureMessage (message : option string) : string :=
  match message with
  | Some m => m
  | None => "Failed to load Pokemon"
  end.

(** [loadPokemonList] from the point where the [i]-th awaited call
    settles, through [finally]. *)
Definition settleLoad (i : nat) (r : Session.os PokemonListResponse)
    (s : Screen) : Screen :=
  match inFlight s !! i with
  | None => s
  | Some request =>
      match r with
      | Session.Resolved response =>
          {| pokemonList :=
               if isRefresh request then results response
               else pokemonList s ++ results response;
             isLoading := false; isRefreshing := false;
             nextUrl := next response; error := error s;
             inFlight := delete i (inFlight s) |}
      | Session.Rejected message =>
          {| pokemonList := pokemonList s;
             isLoading := false; isRefreshing := false;
             nextUrl := nextUrl s;
             error := Some (failureMessage message);
             inFlight := delete i (inFlight s) |}
      end
  end.

(** The truth value of [nextUrl]: [null] and the empty string are
    falsy. *)
Definition hasNext (s : Screen) : bool :=
  match nextUrl s with
  | Some (String _ _) => true
  | _ => false
  end.

Definition handleLoadMore (s : Screen) : Screen :=
  if hasNext s && negb (isLoading s) then loadPokemonList false s else s.

Definition handleRefresh (s : Screen) : Screen := loadPokemonList true s.

(** The screen after its mount effect has called [loadPokemonList()]. *)
Definition mounted : Screen := loadPokemonList false initial.

(** The remote directory, taken to answer a request with the slice of its
    list [all] at the requested offset, and with a next link while items
    remain. *)
Definition serve (all : list PokemonListItem) (request : Request)
    : PokemonListResponse :=
  {| results := take ITEMS_PER_PAGE (drop (offset request) all);
     next :=
       if (offset request + ITEMS_PER_PAGE <? length all)%nat
       then Some (Api.getPokemonListUrl (Z.of_nat ITEMS_PER_PAGE)
                    (Z.of_nat (offset request + ITEMS_PER_PAGE)))
       else None |}.

(** What happens on the list screen between refreshes: the list's end is
    reached, or a request in flight is answered by the directory or
    fails. *)
Inductive Event :=
| EndReached
| Answered (i : nat)
| Failed (i : nat) (message : option string).

Definition step (all : list PokemonListItem) (e : Event) (s : Screen)
    : Screen :=
  match e with
  | EndReached => handleLoadMore s
  | Answered i =>
      match inFlight s !! i with
      | Some request => settleLoad i (Session.Resolved (serve all request)) s
      | None => s
      end
  | Failed i message => settleLoad i (Session.Rejected message) s
  end.

Fixpoint run (all : list PokemonListItem) (es : list Event) (s : Screen)
    : Screen :=
  match es with
  | [] => s
  | e :: es' => run all es' (step all e s)
  end.

End ListScreen.

(** ** components/PowerLevelDisplay *)

Module Display.

(** [(totalSteps % 100) / 100]; [%] takes the sign of the dividend. *)
Definition progress (totalSteps : Z) : Q :=
  (inject_Z (Z.rem totalSteps 100) / inject_Z 100)%Q.




Inductive PermissionButton :=
(** pressing it calls [onRequestPermission] *)
| GrantPermission
(** pressing it calls [onOpenSettings] *)
| OpenSettings.

(** The permission banner: absent when permission is held, otherwise its
    text and its button. *)
Definition permissionBanner (hasPermission canAskAgain : bool)
    : option (string * PermissionButton) :=
  if hasPermission then None
  else if canAskAgain then
    Some ("Step tracking requires motion permission."%string, GrantPermission)
  else
    Some ("Permission denied. Please enable Motion & Fitness in Settings."%string,
          OpenSettings).

End Display.

(** ** Callers of the session *)

Module SessionUse.
Import Session.

Definition isStart (t : Task) : bool :=
  match t with
  | StartAwaitsAvailability _ | StartAwaitsPermission => true
  | PollAwaitsCount _ => false
  end.

(** A [startTracking] call has not run to its end yet. *)
Definition startInFlight (c : Config) : bool :=
  existsb isStart (pending c).

(** How many [startTracking] calls have not run to their end yet. *)
Definition starting (c : Config) : nat :=
  length (List.filter isStart (pending c)).

(** What a caller does that waits for one [startTracking] to end before
    it calls the next. *)
Definition allowed (e : Event) (c : Config) : bool :=
  match e with
  | CallStartTracking => negb (startInFlight c)
  | _ => true
  end.

Fixpoint sequential (es : list Event) (c : Config) : bool :=
  match es with
  | [] => true
  | e :: es' => allowed e c && sequential es' (step e c)
  end.

(** The session holds a live watcher and a live timer, and knows when it
    started. *)
Definition holdsChannels (c : Config) : Prop :=
  exists (w t : nat) (start : Z),
    subscriptionRef (hook c) = Some w /\ w ∈ watchers c
    /\ pollIntervalRef (hook c) = Some t /\ t ∈ intervals c
    /\ startDateRef (hook c) = Some start.

(** The tracking flag is set only on an initialised session, and an
    initialised session holds its channels. *)
Definition truthful (c : Config) : Prop :=
  (isTracking (hook c) = true -> isInitializedRef (hook c) = true)
  /\ (isInitializedRef (hook c) = true -> holdsChannels c).

End SessionUse.

(** ** Proof support *)

Import Power Session Storage.

#[local] Arguments orZero : simpl never.

(** Unfolds the service down to the device. *)
Ltac storage_unfold :=
  unfold savePowerLevel, saveStepProgress, getPowerLevel, getStepProgress,
    getPowerLevels, getStepProgressMap, clearAll, readMap, tryCatch, bind,
    getItem, setItem, removeItem, native, setMember, deleteMember, getMember,
    JSON_parse, JSON_stringify, truthy, ret, throw in *.

(** Splits a device into the shapes the service can tell apart: the first
    two entries of the fault schedule and the text under each key. *)
Ltac storage_world w :=
  let p := fresh "p" in
  let s := fresh "s" in
  let fs := fresh "fs" in
  destruct w as [[p s] fs];
  destruct fs as [| [|] [| [|] fs]];
  destruct p as [[| | | ?] |]; destruct s as [[| | | ?] |].

(** ** Theorems *)

(** *** The power formula *)




(** *** Effective steps *)

Lemma calculatedSteps_nonneg (h : Hook) : 0 <= calculatedSteps h.
Proof. unfold calculatedSteps. lia. Qed.

(** C5. Whatever [rawSteps] and the baseline are, the effective step count
    is [max (rawSteps - baseline) 0] and so is never negative; this holds in
    every configuration the session can reach, and a poll that delivers a
    count below the baseline is written to [rawSteps] and leaves the
    effective count at 0. *)
Theorem C5_effective_steps_clamped (c : Config) (es : list Event) :
  let h := hook (run es c) in
  calculatedSteps h = Z.max (rawSteps h - baselineRef h) 0
  /\ 0 <= calculatedSteps h
  /\ (forall v : Z, 0 < v -> v < baselineRef h ->
        rawSteps (onPollSettled (Resolved v) h) = v
        /\ baselineRef (onPollSettled (Resolved v) h) = baselineRef h
        /\ calculatedSteps (onPollSettled (Resolved v) h) = 0).
Proof.
  cbv zeta. split; [reflexivity |].
  split; [apply calculatedSteps_nonneg |].
  intros v Hpos Hlow. unfold onPollSettled.
  destruct (Z.ltb_spec 0 v) as [_ | Hle]; [| lia].
  unfold calculatedSteps; simpl. repeat split. lia.
Qed.

(** *** Permission handling *)

(** C4 as stated fails for the permission request: when
    [requestPermissionsAsync] throws, [requestPermission] answers [false]
    and records the permission as not granted. *)
Lemma C4_request_rejection_is_not_granted :
  ~ (forall (p : Platform) (message : option string) (h : Hook),
       fst (requestPermission p (Rejected message) h) = true
       /\ hasPermission (snd (requestPermission p (Rejected message) h))
          = true).
Proof.
  intros Hclaim.
  destruct (Hclaim expo None (hook (mount expo))) as [Hret _].
  discriminate Hret.
Qed.

(** C4, amended. Neither permission call lets a thrown error escape.  When
    the permission query throws, [checkPermissionStatus] answers [true] and
    leaves [hasPermission] and [canAskAgain] set and the error field as it
    was (fail-open), and a mount whose query threw goes on to track without
    prompting.  When the permission request throws, [requestPermission]
    answers [false], clears [hasPermission] and reports
    'Unable to request pedometer permission' (fail-closed), and a
    [startTracking] that was waiting for it does not begin tracking. *)
Theorem C4_query_fails_open_request_fails_closed
    (p : Platform) (message : option string)
    (request : os (option PermissionResponse)) (h : Hook) (c : Config)
    (Hrequest : hasRequestPermissionsAsync p = true) :
  (fst (checkPermissionStatus p (Rejected message) request h) = true
   /\ hasPermission (snd (checkPermissionStatus p (Rejected message) request h))
      = true
   /\ canAskAgain (snd (checkPermissionStatus p (Rejected message) request h))
      = true
   /\ error (snd (checkPermissionStatus p (Rejected message) request h))
      = error h)
  /\ isTracking
       (hook (run [CallStartTracking; Settle 0 (Availability (Resolved true))]
                (checkAvailability (Resolved true) (Rejected message) request
                   (mount p)))) = true
  /\ (fst (requestPermission p (Rejected message) h) = false
      /\ hasPermission (snd (requestPermission p (Rejected message) h)) = false
      /\ error (snd (requestPermission p (Rejected message) h))
         = Some "Unable to request pedometer permission"%string)
  /\ (isTracking (hook (startTracking_permission (Rejected message) c))
      = isTracking (hook c)
      /\ watchers (startTracking_permission (Rejected message) c) = watchers c
      /\ error (hook (startTracking_permission (Rejected message) c))
         = Some "Pedometer permission not granted"%string).
Proof.
  split; [| split; [| split]].
  - unfold checkPermissionStatus.
    destruct (hasGetPermissionsAsync p); repeat split.
  - unfold checkAvailability, checkPermissionStatus; simpl.
    destruct (hasGetPermissionsAsync p); reflexivity.
  - unfold requestPermission. rewrite Hrequest. repeat split.
  - repeat split.
Qed.

(** On a platform with both entry points, from the mounted hook. *)
Lemma C4_query_fails_open_request_fails_closed_on_expo :
  hasRequestPermissionsAsync expo = true
  /\ hasPermission
       (snd (checkPermissionStatus expo (Rejected None) (Rejected None)
               (hook (mount expo)))) = true
  /\ hasPermission
       (snd (requestPermission expo (Rejected None) (hook (mount expo))))
     = false.
Proof.
  pose proof (C4_query_fails_open_request_fails_closed expo None
                (Rejected None) (hook (mount expo)) (mount expo) eq_refl)
    as [[_ [Hopen _]] [_ [[_ [Hclosed _]] _]]].
  split; [reflexivity |]. split; [exact Hopen | exact Hclosed].
Defined.

(** *** Monotonicity of the effective steps *)




(** Both channels of the running machine act on the hook through
    [deliver], or not at all. *)
Lemma step_push_delivers (w : nat) (v : Z) (c : Config) :
  hook (step (Push w v) c) = hook c
  \/ hook (step (Push w v) c) = deliver (Pushed v) (hook c).
Proof.
  simpl. destruct (bool_decide (w ∈ watchers c)); [right | left]; reflexivity.
Qed.

Lemma step_poll_delivers (i : nat) (v : Z) (c : Config) :
  hook (step (Settle i (StepCount (Resolved v))) c) = hook c
  \/ hook (step (Settle i (StepCount (Resolved v))) c)
     = deliver (Polled v) (hook c).
Proof.
  simpl. unfold settle.
  destruct (pending c !! i) as [[seen | | start] |];
    [left | left | right | left]; reflexivity.
Qed.






(** *** Starting and stopping *)

Lemma startTracking_initialized (c : Config) :
  isInitializedRef (hook c) = true -> startTracking c = c.
Proof. intros Hinit. unfold startTracking. rewrite Hinit. reflexivity. Qed.

(** C6 on the code. Once tracking has begun, [startTracking] returns at its
    guard and changes nothing.  While a first call is still waiting for
    [isAvailableAsync], the guard flag is not yet set: a second call passes
    the guard too, and when both go on the session has two live watchers
    and two live timers, of which [stopTracking] releases one each. *)
Theorem C6_start_guard_misses_pending_start :
  let starting := step CallStartTracking ready in
  let overlapped :=
    run [CallStartTracking;
         Settle 0 (Availability (Resolved true));
         Settle 0 (Availability (Resolved true))] starting in
  (forall c : Config, startTracking (beginTracking c) = beginTracking c)
  /\ isInitializedRef (hook starting) = false
  /\ pending starting = [StartAwaitsAvailability true]
  /\ pending (step CallStartTracking starting)
     = [StartAwaitsAvailability true; StartAwaitsAvailability true]
  /\ size (watchers overlapped) = 2%nat
  /\ size (intervals overlapped) = 2%nat
  /\ size (watchers (stopTracking overlapped)) = 1%nat
  /\ size (intervals (stopTracking overlapped)) = 1%nat.
Proof.
  cbv zeta. split; [intros c; reflexivity |].
  repeat split; vm_compute; reflexivity.
Qed.

Lemma released_held (X : gset nat) (n : nat) : X ⊆ {[n]} -> X ∖ {[n]} = ∅.
Proof.
  intros Hsub. apply set_eq; intros x.
  rewrite elem_of_difference, elem_of_empty, elem_of_singleton.
  specialize (Hsub x). rewrite elem_of_singleton in Hsub. tauto.
Qed.

Lemma nothing_held (X : gset nat) : X ⊆ ∅ -> X = ∅.
Proof.
  intros Hsub. apply set_eq; intros x. rewrite elem_of_empty.
  specialize (Hsub x). rewrite elem_of_empty in Hsub. tauto.
Qed.










(** *** The storage service *)

(** What a save leaves in the store: either nothing changed, or the key's
    text was replaced by the serialisation of the map that was read (the
    stored one, or the empty one after a failed read) with the one entry
    set or removed. *)
Lemma savePowerLevel_store (id level : Z) (w : World) :
  fst (savePowerLevel id level w) = Returned tt
  /\ stepProgress (store (snd (savePowerLevel id level w)))
     = stepProgress (store w)
  /\ (powerLevels (store (snd (savePowerLevel id level w)))
      = powerLevels (store w)
      \/ exists m : gmap Z Z,
           powerLevels (store (snd (savePowerLevel id level w)))
           = Some (ObjectText (<[id := level]> m))
           /\ (m = ∅ \/ powerLevels (store w) = Some (ObjectText m))).
Proof.
  storage_world w; storage_unfold; simpl;
    (split; [reflexivity | split; [reflexivity |]]);
    first [left; reflexivity | right; eexists; split; [reflexivity |]; auto].
Qed.

Lemma saveStepProgress_store (id steps : Z) (w : World) :
  fst (saveStepProgress id steps w) = Returned tt
  /\ powerLevels (store (snd (saveStepProgress id steps w)))
     = powerLevels (store w)
  /\ (stepProgress (store (snd (saveStepProgress id steps w)))
      = stepProgress (store w)
      \/ exists m : gmap Z Z,
           stepProgress (store (snd (saveStepProgress id steps w)))
           = Some (ObjectText
                     (if steps <=? 0 then delete id m else <[id := steps]> m))
           /\ (m = ∅ \/ stepProgress (store w) = Some (ObjectText m))).
Proof.
  storage_world w; storage_unfold; simpl; destruct (steps <=? 0); simpl;
    (split; [reflexivity | split; [reflexivity |]]);
    first [left; reflexivity | right; eexists; split; [reflexivity |]; auto].
Qed.

Lemma readers_store (id : Z) (w : World) :
  store (snd (getPowerLevels w)) = store w
  /\ store (snd (getStepProgressMap w)) = store w
  /\ store (snd (getPowerLevel id w)) = store w
  /\ store (snd (getStepProgress id w)) = store w.
Proof. storage_world w; storage_unfold; simpl; repeat split. Qed.

Lemma clearAll_store (w : World) :
  stepProgress (store (snd (clearAll w))) = stepProgress (store w)
  \/ stepProgress (store (snd (clearAll w))) = None.
Proof. storage_world w; storage_unfold; simpl; auto. Qed.

Lemma sparse_same_steps (s1 s2 : Store) :
  stepProgress s2 = stepProgress s1 -> sparse s1 -> sparse s2.
Proof.
  intros Heq Hsparse id v. unfold entry; simpl. rewrite Heq.
  apply (Hsparse id v).
Qed.

Lemma sparse_cleared (s : Store) : stepProgress s = None -> sparse s.
Proof. intros Hnone id v. unfold entry; simpl. rewrite Hnone. discriminate. Qed.

Lemma sparse_saved (id steps : Z) (m : gmap Z Z) (s1 s2 : Store) :
  stepProgress s2
  = Some (ObjectText (if steps <=? 0 then delete id m else <[id := steps]> m)) ->
  m = ∅ \/ stepProgress s1 = Some (ObjectText m) ->
  sparse s1 -> sparse s2.
Proof.
  intros Hnew Hold Hsparse k v. unfold entry; simpl. rewrite Hnew.
  assert (Hm : forall k' v', m !! k' = Some v' -> 0 < v').
  { intros k' v' Hlook. destruct Hold as [-> | Hold].
    - rewrite lookup_empty in Hlook. discriminate.
    - apply (Hsparse k' v'). unfold entry; simpl. rewrite Hold. exact Hlook. }
  destruct (Z.leb_spec steps 0) as [Hle | Hgt].
  - intros [_ Hlook]%lookup_delete_Some. eapply Hm, Hlook.
  - intros [[_ <-] | [_ Hlook]]%lookup_insert_Some; [lia |].
    eapply Hm, Hlook.
Qed.

Lemma call_sparse (c : Call) (w : World) :
  sparse (store w) -> sparse (store (call c w)).
Proof.
  intros Hsparse.
  destruct c as [| id level | id | | id | id steps |]; simpl.
  - destruct (readers_store 0 w) as (-> & _). exact Hsparse.
  - destruct (savePowerLevel_store id level w) as (_ & Hsteps & _).
    eapply sparse_same_steps; eassumption.
  - destruct (readers_store id w) as (_ & _ & -> & _). exact Hsparse.
  - destruct (readers_store 0 w) as (_ & -> & _). exact Hsparse.
  - destruct (readers_store id w) as (_ & _ & _ & ->). exact Hsparse.
  - destruct (saveStepProgress_store id steps w)
      as (_ & _ & [Hsame | (m & Hnew & Hold)]).
    + eapply sparse_same_steps; eassumption.
    + eapply sparse_saved; eassumption.
  - destruct (clearAll_store w) as [Hsame | Hnone].
    + eapply sparse_same_steps; eassumption.
    + apply sparse_cleared, Hnone.
Qed.

Lemma calls_sparse (cs : list Call) (w : World) :
  sparse (store w) -> sparse (store (calls cs w)).
Proof.
  revert w. induction cs as [| c cs IH]; intros w Hsparse; simpl;
    [exact Hsparse |].
  apply IH, call_sparse, Hsparse.
Qed.

Lemma saveStepProgress_nonpositive (id steps : Z) (w : World) :
  steps <= 0 ->
  (stepProgress (store (snd (saveStepProgress id steps w)))
   = stepProgress (store w)
   \/ entry STEP_PROGRESS id (store (snd (saveStepProgress id steps w)))
      = None)
  /\ (faults w = [] ->
      entry STEP_PROGRESS id (store (snd (saveStepProgress id steps w)))
      = None).
Proof.
  intros Hle. apply Z.leb_le in Hle.
  destruct w as [[p s] fs]. split.
  - destruct (saveStepProgress_store id steps
                {| store := {| powerLevels := p; stepProgress := s |};
                   faults := fs |})
      as (_ & _ & [Hsame | (m & Hnew & _)]); [left; exact Hsame | right].
    unfold entry; simpl. rewrite Hnew, Hle. apply lookup_delete_eq.
  - simpl. intros ->. destruct s as [[| | | m] |]; storage_unfold; simpl;
      rewrite ?Hle; unfold entry; simpl;
      try reflexivity; apply lookup_delete_eq.
Qed.

Lemma savePowerLevel_faultless (id level : Z) (w : World) :
  faults w = [] -> faults (snd (savePowerLevel id level w)) = [].
Proof.
  destruct w as [[p s] fs]; simpl; intros ->.
  destruct p as [[| | | m] |]; storage_unfold; reflexivity.
Qed.

(** C8. The step-progress store is sparse.  A save of a step count [<= 0]
    (by [saveStepProgress], so by the write-through effect and by
    [refreshPower] alike) deletes the entity's key from the map it writes:
    afterwards the key is absent, or the write was dropped and the stored
    text is what it was; when no native call fails the key is absent.  No
    call of the service, under any schedule of failing native calls, leaves
    an entry [<= 0] in the step-progress store, from a fresh device or from
    any store that held none. *)
Theorem C8_step_progress_store_is_sparse
    (cs : list Call) (w : World) (id steps : Z) (h : PokemonPower.Hook)
    (Hsparse : sparse (store w))
    (Hsteps : steps <= 0)
    (Hentity : PokemonPower.pokemon h = Some id)
    (Htotal : PokemonPower.totalSteps h <= 0) :
  (sparse (store (calls cs w))
   /\ forall fs : list bool, sparse (store (calls cs (fresh fs))))
  /\ (stepProgress (store (snd (saveStepProgress id steps w)))
      = stepProgress (store w)
      \/ entry STEP_PROGRESS id (store (snd (saveStepProgress id steps w)))
         = None)
  /\ (forall v : Z,
        entry STEP_PROGRESS id (store (snd (saveStepProgress id steps w)))
        = Some v -> 0 < v)
  /\ (faults w = [] ->
      entry STEP_PROGRESS id (store (snd (saveStepProgress id steps w))) = None
      /\ entry STEP_PROGRESS id (store (snd (PokemonPower.persistSteps h w)))
         = None
      /\ entry STEP_PROGRESS id (store (snd (PokemonPower.refreshPower h w)))
         = None).
Proof.
  destruct (saveStepProgress_nonpositive id steps w Hsteps) as [Hkey Hclean].
  split; [split |].
  - apply calls_sparse, Hsparse.
  - intros fs. apply calls_sparse, sparse_cleared. reflexivity.
  - split; [exact Hkey |]. split.
    + apply (call_sparse (SaveStepProgress id steps) w Hsparse id).
    + intros Hfaults. split; [apply Hclean, Hfaults |].
      unfold PokemonPower.persistSteps, PokemonPower.refreshPower.
      rewrite Hentity. split.
      * apply saveStepProgress_nonpositive; assumption.
      * unfold bind at 1.
        destruct (savePowerLevel_store id (PokemonPower.totalPowerLevel h) w)
          as (Hret & _ & _).
        pose proof (savePowerLevel_faultless id
                      (PokemonPower.totalPowerLevel h) w Hfaults) as Hnext.
        destruct (savePowerLevel id (PokemonPower.totalPowerLevel h) w)
          as [r w1]; simpl in *. subst r.
        apply saveStepProgress_nonpositive; assumption.
Qed.

(** Saving 0 steps for entity 7 removes its entry of 40. *)
Lemma C8_step_progress_store_is_sparse_on_zero_save :
  let w :=
    {| store := {| powerLevels := None;
                   stepProgress := Some (ObjectText {[7 := 40]}) |};
       faults := [] |} in
  sparse (store w)
  /\ entry STEP_PROGRESS 7 (store w) = Some 40
  /\ PokemonPower.totalSteps (PokemonPower.mount (Some 7) expo) <= 0
  /\ entry STEP_PROGRESS 7 (store (snd (saveStepProgress 7 0 w))) = None.
Proof.
  cbv zeta.
  assert (Hsparse :
    sparse
      (store
         {| store := {| powerLevels := None;
                        stepProgress := Some (ObjectText {[7 := 40]}) |};
            faults := [] |})).
  { intros id v. unfold entry; simpl.
    intros [_ <-]%lookup_singleton_Some. lia. }
  assert (Htotal :
    PokemonPower.totalSteps (PokemonPower.mount (Some 7) expo) <= 0).
  { vm_compute. discriminate. }
  split; [exact Hsparse |]. split; [vm_compute; reflexivity |].
  split; [exact Htotal |].
  pose proof (C8_step_progress_store_is_sparse [] _ 7 0
                (PokemonPower.mount (Some 7) expo) Hsparse
                ltac:(lia) eq_refl Htotal) as (_ & _ & _ & Hclean).
  apply Hclean. reflexivity.
Defined.



(** *** The accrual hook *)

Lemma orZero_default (x : option Z) : orZero x = default 0 x.
Proof.
  destruct x as [n |]; unfold orZero; simpl; [| reflexivity].
  destruct (Z.eqb_spec n 0); congruence.
Qed.

Lemma loadPowerLevel_returns (h : PokemonPower.Hook) (w : World) :
  exists (h' : PokemonPower.Hook) (w' : World),
    PokemonPower.loadPowerLevel h w = (Returned h', w')
    /\ store w' = store w
    /\ PokemonPower.isLoading h' = false
    /\ PokemonPower.tracker h' = PokemonPower.tracker h
    /\ PokemonPower.pokemon h' = PokemonPower.pokemon h.
Proof.
  unfold PokemonPower.loadPowerLevel.
  destruct (PokemonPower.pokemon h) as [id |] eqn:Hentity.
  - storage_world w; storage_unfold; simpl;
      do 2 eexists; (split; [reflexivity |]); simpl; auto.
  - do 2 eexists. split; [reflexivity |]. simpl. auto.
Qed.

(** C9. [loadPowerLevel] never throws: on every device and under every
    schedule of failing native calls it returns, having left the store as
    it was.  For the entity shown, the loaded power level is 0 when the
    read of the power levels is rejected or holds no entry for the entity
    (no stored text, a text that does not parse, no such key), and the
    loaded step progress is 0 when the read of the step progress is
    rejected or holds no entry for the entity.  When both reads succeed on
    stored maps, what is loaded is the stored entry, or 0 for a missing
    one. *)
Theorem C9_load_defaults_to_zero
    (h : PokemonPower.Hook) (w : World) (id : Z)
    (Hentity : PokemonPower.pokemon h = Some id) :
  (forall (h0 : PokemonPower.Hook) (w0 : World),
      exists (h' : PokemonPower.Hook) (w' : World),
        PokemonPower.loadPowerLevel h0 w0 = (Returned h', w'))
  /\ exists (h' : PokemonPower.Hook) (w' : World),
       PokemonPower.loadPowerLevel h w = (Returned h', w')
       /\ store w' = store w
       /\ PokemonPower.isLoading h' = false
       /\ (faults w !! 0%nat = Some true
           \/ entry POWER_LEVELS id (store w) = None ->
           PokemonPower.basePowerLevel h' = 0)
       /\ (faults w !! 1%nat = Some true
           \/ entry STEP_PROGRESS id (store w) = None ->
           PokemonPower.storedSteps h' = 0)
       /\ (faults w = [] ->
           powerLevels (store w) <> Some NullText ->
           stepProgress (store w) <> Some NullText ->
           PokemonPower.basePowerLevel h'
           = default 0 (entry POWER_LEVELS id (store w))
           /\ PokemonPower.storedSteps h'
              = default 0 (entry STEP_PROGRESS id (store w))).
Proof.
  split.
  - intros h0 w0.
    destruct (loadPowerLevel_returns h0 w0) as (h' & w' & Hload & _).
    eauto.
  - unfold PokemonPower.loadPowerLevel. rewrite Hentity.
    storage_world w; storage_unfold; unfold entry; simpl;
      do 2 eexists; (split; [reflexivity |]); simpl;
      (split; [reflexivity |]); (split; [reflexivity |]);
      (split; [| split]);
      try (intros [Hfault | Hnone]; try discriminate Hfault;
           try rewrite Hnone; reflexivity);
      try (intros Hfaults; discriminate Hfaults);
      intros _ Hpower Hsteps; try congruence;
      rewrite ?orZero_default; split; reflexivity.
Qed.

(** Both reads rejected: the stored 2 and 50 are not seen. *)
Lemma C9_load_defaults_to_zero_on_rejected_reads :
  let h := PokemonPower.mount (Some 25) expo in
  let w :=
    {| store := {| powerLevels := Some (ObjectText {[25 := 2]});
                   stepProgress := Some (ObjectText {[25 := 50]}) |};
       faults := [true; true] |} in
  PokemonPower.pokemon h = Some 25
  /\ exists (h' : PokemonPower.Hook) (w' : World),
       PokemonPower.loadPowerLevel h w = (Returned h', w')
       /\ PokemonPower.basePowerLevel h' = 0
       /\ PokemonPower.storedSteps h' = 0.
Proof.
  cbv zeta. split; [reflexivity |].
  pose proof (C9_load_defaults_to_zero (PokemonPower.mount (Some 25) expo)
                {| store := {| powerLevels := Some (ObjectText {[25 := 2]});
                               stepProgress :=
                                 Some (ObjectText {[25 := 50]}) |};
                   faults := [true; true] |} 25 eq_refl)
    as (_ & h' & w' & Hload & _ & _ & Hpower & Hsteps & _).
  exists h', w'. split; [exact Hload |]. split.
  - apply Hpower. left. reflexivity.
  - apply Hsteps. left. reflexivity.
Defined.




(** ** Further properties of the code *)

(** *** The power formula, continued *)



(** *** The storage service, continued *)

(** What the service finds under a key once a save has gone through on a
    device whose native calls succeed. *)
Lemma savePowerLevel_faultless_entries (id level : Z) (w : World) :
  faults w = [] -> powerLevels (store w) <> Some NullText ->
  faults (snd (savePowerLevel id level w)) = []
  /\ (exists m : gmap Z Z,
        powerLevels (store (snd (savePowerLevel id level w)))
        = Some (ObjectText m))
  /\ stepProgress (store (snd (savePowerLevel id level w)))
     = stepProgress (store w)
  /\ forall k : Z,
       entry POWER_LEVELS k (store (snd (savePowerLevel id level w)))
       = if decide (k = id) then Some level
         else entry POWER_LEVELS k (store w).
Proof.
  destruct w as [[p s] fs]; simpl; intros -> Hobject.
  destruct p as [[| | | m] |]; try congruence;
    storage_unfold; unfold entry; simpl;
    (split; [reflexivity |]); (split; [eauto |]); (split; [reflexivity |]);
    intros k; destruct (decide (k = id)) as [-> | Hne];
    rewrite ?lookup_insert_eq, ?lookup_insert_ne by congruence;
    reflexivity.
Qed.

Lemma saveStepProgress_faultless_entries (id steps : Z) (w : World) :
  faults w = [] -> stepProgress (store w) <> Some NullText ->
  faults (snd (saveStepProgress id steps w)) = []
  /\ (exists m : gmap Z Z,
        stepProgress (store (snd (saveStepProgress id steps w)))
        = Some (ObjectText m))
  /\ powerLevels (store (snd (saveStepProgress id steps w)))
     = powerLevels (store w)
  /\ forall k : Z,
       entry STEP_PROGRESS k (store (snd (saveStepProgress id steps w)))
       = if decide (k = id) then (if steps <=? 0 then None else Some steps)
         else entry STEP_PROGRESS k (store w).
Proof.
  destruct w as [[p s] fs]; simpl; intros -> Hobject.
  destruct s as [[| | | m] |]; try congruence;
    storage_unfold; unfold entry; simpl; destruct (steps <=? 0); simpl;
    (split; [reflexivity |]); (split; [eauto |]); (split; [reflexivity |]);
    intros k; destruct (decide (k = id)) as [-> | Hne];
    rewrite ?lookup_insert_eq, ?lookup_insert_ne,
      ?lookup_delete_eq, ?lookup_delete_ne by congruence;
    reflexivity.
Qed.

(** What the two getters return on a device whose native calls succeed. *)
Lemma getters_faultless (id : Z) (w : World) :
  faults w = [] ->
  (powerLevels (store w) <> Some NullText ->
   getPowerLevel id w
   = (Returned (default 0 (entry POWER_LEVELS id (store w))), w))
  /\ (stepProgress (store w) <> Some NullText ->
      getStepProgress id w
      = (Returned (default 0 (entry STEP_PROGRESS id (store w))), w)).
Proof.
  destruct w as [[p s] fs]; simpl; intros ->. split; intros Hobject.
  - destruct p as [[| | | m] |]; try congruence;
      storage_unfold; unfold entry; simpl; rewrite orZero_default;
      reflexivity.
  - destruct s as [[| | | m] |]; try congruence;
      storage_unfold; unfold entry; simpl; rewrite orZero_default;
      reflexivity.
Qed.

(** X2. Saving a power level and reading it back: on a device whose native
    calls succeed and whose power-level text is not [null], after
    [savePowerLevel id level] the getter returns [level] for [id] and
    returns for every other entity what it returned before. *)
Theorem X2_power_level_read_back
    (id level : Z) (w : World)
    (Hfaults : faults w = [])
    (Hobject : powerLevels (store w) <> Some NullText) :
  fst (getPowerLevel id (snd (savePowerLevel id level w))) = Returned level
  /\ forall k : Z,
       k <> id ->
       fst (getPowerLevel k (snd (savePowerLevel id level w)))
       = fst (getPowerLevel k w).
Proof.
  destruct (savePowerLevel_faultless_entries id level w Hfaults Hobject)
    as (Hclean & (m & Hmap) & _ & Hentry).
  assert (Hobject' :
    powerLevels (store (snd (savePowerLevel id level w))) <> Some NullText)
    by (rewrite Hmap; discriminate).
  destruct (getters_faultless id _ Hclean) as [Hget _].
  split.
  - rewrite (Hget Hobject'), Hentry. simpl.
    destruct (decide (id = id)); [reflexivity | congruence].
  - intros k Hne.
    destruct (getters_faultless k _ Hclean) as [Hk _].
    destruct (getters_faultless k w Hfaults) as [Hk0 _].
    rewrite (Hk Hobject'), (Hk0 Hobject), Hentry. simpl.
    destruct (decide (k = id)); [congruence | reflexivity].
Qed.

(** Level 7 for entity 4, next to entity 9. *)
Lemma X2_power_level_read_back_of_seven :
  let w :=
    {| store := {| powerLevels := Some (ObjectText {[4 := 5; 9 := 1]});
                   stepProgress := None |};
       faults := [] |} in
  faults w = []
  /\ powerLevels (store w) <> Some NullText
  /\ fst (getPowerLevel 4 (snd (savePowerLevel 4 7 w))) = Returned 7.
Proof.
  cbv zeta. split; [reflexivity |]. split; [discriminate |].
  pose proof (X2_power_level_read_back 4 7
                {| store := {| powerLevels :=
                                 Some (ObjectText {[4 := 5; 9 := 1]});
                               stepProgress := None |};
                   faults := [] |} eq_refl ltac:(discriminate))
    as (Hback & _).
  exact Hback.
Defined.

(** X3. Saving step progress and reading it back: on a device whose native
    calls succeed and whose step-progress text is not [null], after
    [saveStepProgress id steps] the getter returns [max steps 0] for [id]
    (a count [<= 0] reads back as 0, its key being gone) and returns for
    every other entity what it returned before. *)
Theorem X3_step_progress_read_back
    (id steps : Z) (w : World)
    (Hfaults : faults w = [])
    (Hobject : stepProgress (store w) <> Some NullText) :
  fst (getStepProgress id (snd (saveStepProgress id steps w)))
  = Returned (Z.max steps 0)
  /\ forall k : Z,
       k <> id ->
       fst (getStepProgress k (snd (saveStepProgress id steps w)))
       = fst (getStepProgress k w).
Proof.
  destruct (saveStepProgress_faultless_entries id steps w Hfaults Hobject)
    as (Hclean & (m & Hmap) & _ & Hentry).
  assert (Hobject' :
    stepProgress (store (snd (saveStepProgress id steps w)))
    <> Some NullText)
    by (rewrite Hmap; discriminate).
  destruct (getters_faultless id _ Hclean) as [_ Hget].
  split.
  - rewrite (Hget Hobject'), Hentry. simpl.
    destruct (decide (id = id)); [| congruence].
    destruct (Z.leb_spec steps 0); simpl; f_equal; lia.
  - intros k Hne.
    destruct (getters_faultless k _ Hclean) as [_ Hk].
    destruct (getters_faultless k w Hfaults) as [_ Hk0].
    rewrite (Hk Hobject'), (Hk0 Hobject), Hentry. simpl.
    destruct (decide (k = id)); [congruence | reflexivity].
Qed.

(** A negative count for entity 7 reads back as 0. *)
Lemma X3_step_progress_read_back_of_negative :
  let w :=
    {| store := {| powerLevels := None;
                   stepProgress := Some (ObjectText {[7 := 40]}) |};
       faults := [] |} in
  faults w = []
  /\ stepProgress (store w) <> Some NullText
  /\ fst (getStepProgress 7 (snd (saveStepProgress 7 (-3) w))) = Returned 0.
Proof.
  cbv zeta. split; [reflexivity |]. split; [discriminate |].
  pose proof (X3_step_progress_read_back 7 (-3)
                {| store := {| powerLevels := None;
                               stepProgress :=
                                 Some (ObjectText {[7 := 40]}) |};
                   faults := [] |} eq_refl ltac:(discriminate))
    as (Hback & _).
  exact Hback.
Defined.

(** X4. The saving methods and the map readers never throw, whatever is
    stored and whichever native calls fail, and a save leaves the other
    key's text alone; the per-entity getters leave the store alone but are
    not total: on a stored [null] they throw a [TypeError]. *)
Theorem X4_service_failures_stay_inside (id x : Z) (w : World) :
  (fst (savePowerLevel id x w) = Returned tt
   /\ stepProgress (store (snd (savePowerLevel id x w)))
      = stepProgress (store w))
  /\ (fst (saveStepProgress id x w) = Returned tt
      /\ powerLevels (store (snd (saveStepProgress id x w)))
         = powerLevels (store w))
  /\ fst (clearAll w) = Returned tt
  /\ ((exists v : Value, fst (getPowerLevels w) = Returned v)
      /\ (exists v : Value, fst (getStepProgressMap w) = Returned v))
  /\ (store (snd (getPowerLevel id w)) = store w
      /\ store (snd (getStepProgress id w)) = store w)
  /\ fst (getPowerLevel id
            {| store := {| powerLevels := Some NullText;
                           stepProgress := stepProgress (store w) |};
               faults := [] |}) = Threw TypeError.
Proof.
  destruct (savePowerLevel_store id x w) as (Hp & Hps & _).
  destruct (saveStepProgress_store id x w) as (Hs & Hsp & _).
  destruct (readers_store id w) as (_ & _ & Hgp & Hgs).
  repeat split; try assumption;
    storage_world w; storage_unfold; simpl; eauto.
Qed.

(** X5. [clearAll] removes both keys when the native calls succeed, after
    which every getter returns 0.  It is not atomic: when the first removal
    is rejected the second is not attempted and the store is left whole;
    when only the second is rejected the power levels are gone and the step
    progress is kept. *)
Theorem X5_clearAll_outcomes (s : Store) (fs : list bool) (id : Z) :
  (store (snd (clearAll {| store := s; faults := [] |}))
   = {| powerLevels := None; stepProgress := None |}
   /\ fst (getPowerLevel id (snd (clearAll {| store := s; faults := [] |})))
      = Returned 0
   /\ fst (getStepProgress id (snd (clearAll {| store := s; faults := [] |})))
      = Returned 0)
  /\ store (snd (clearAll {| store := s; faults := true :: fs |})) = s
  /\ store (snd (clearAll {| store := s; faults := false :: true :: fs |}))
     = {| powerLevels := None; stepProgress := stepProgress s |}
  /\ store (snd (clearAll {| store := s; faults := false :: false :: fs |}))
     = {| powerLevels := None; stepProgress := None |}.
Proof.
  destruct s as [p t]. storage_unfold. simpl. repeat split.
Qed.

(** *** The accrual hook, continued *)









(** X8. The auto-start effect initiates tracking at most once per entity:
    running it again right away changes nothing; it parks at most one
    [startTracking]; and once tracking has been initiated for the entity
    shown it does nothing at all, whatever became of that start. *)
Theorem X8_autoTrack_initiates_once (h : PokemonPower.Hook) :
  PokemonPower.autoTrack (PokemonPower.autoTrack h) = PokemonPower.autoTrack h
  /\ (length (pending (PokemonPower.tracker (PokemonPower.autoTrack h)))
      <= S (length (pending (PokemonPower.tracker h))))%nat
  /\ (forall id : Z,
        PokemonPower.pokemon h = Some id ->
        PokemonPower.trackingStartedRef h = Some id ->
        PokemonPower.autoTrack h = h).
Proof.
  destruct h as [pk base loading stored started t].
  unfold PokemonPower.autoTrack; simpl.
  destruct pk as [id |]; simpl; [| repeat split; lia].
  assert (Hhook : hook (startTracking t) = hook t).
  { unfold startTracking. destruct (isInitializedRef (hook t)); reflexivity. }
  assert (Hlen : (length (pending (startTracking t))
                  <= S (length (pending t)))%nat).
  { unfold startTracking. destruct (isInitializedRef (hook t)); simpl;
      [lia | rewrite length_app; simpl; lia]. }
  split; [| split].
  - destruct (negb (isTracking (hook t)) && isAvailable (hook t)
              && hasPermission (hook t)) eqn:Hgo; simpl.
    + destruct (bool_decide (started = Some id)) eqn:Hsame; simpl.
      * apply bool_decide_eq_true in Hsame. subst started. simpl.
        rewrite bool_decide_eq_true_2 by reflexivity. simpl.
        rewrite Hgo, bool_decide_eq_true_2 by reflexivity. simpl.
        rewrite bool_decide_eq_true_2 by reflexivity. reflexivity.
      * rewrite bool_decide_eq_true_2 by reflexivity. simpl.
        rewrite Hhook, Hgo, bool_decide_eq_true_2 by reflexivity. simpl.
        rewrite bool_decide_eq_true_2 by reflexivity. reflexivity.
    + destruct started as [s |]; simpl; [| rewrite Hgo; reflexivity].
      destruct (bool_decide (s = id)) eqn:Hsame; simpl.
      * rewrite Hgo. simpl. rewrite Hsame. reflexivity.
      * rewrite Hgo. reflexivity.
  - destruct (negb (isTracking (hook t)) && isAvailable (hook t)
              && hasPermission (hook t)
              && negb (bool_decide (started = Some id))); simpl.
    + rewrite bool_decide_eq_true_2 by reflexivity. simpl. exact Hlen.
    + destruct started as [s |]; simpl; [| lia].
      destruct (bool_decide (s = id)); simpl; lia.
  - intros id' [= <-] ->.
    rewrite bool_decide_eq_true_2 by reflexivity.
    rewrite andb_false_r. simpl.
    rewrite bool_decide_eq_true_2 by reflexivity. reflexivity.
Qed.

(** *** The session, continued *)



Lemma startTracking_parks (c : Config) :
  isInitializedRef (hook c) = false ->
  pending (startTracking c)
  = pending c ++ [StartAwaitsAvailability (hasPermission (hook c))]
  /\ hook (startTracking c) = hook c
  /\ watchers (startTracking c) = watchers c
  /\ intervals (startTracking c) = intervals c
  /\ api (startTracking c) = api c.
Proof.
  intros Hidle. unfold startTracking. rewrite Hidle. repeat split.
Qed.

Lemma settle_last (c : Config) (t : Task) (s : Settlement) :
  settle (length (pending c)) s (park t c)
  = match t, s with
    | StartAwaitsAvailability seen, Availability r =>
        startTracking_available seen r c
    | StartAwaitsPermission, Permission r => startTracking_permission r c
    | PollAwaitsCount _, StepCount r => withHook (onPollSettled r (hook c)) c
    | _, _ => park t c
    end.
Proof.
  unfold settle, park; simpl.
  rewrite list_lookup_middle by reflexivity.
  rewrite (delete_middle (pending c) [] t), app_nil_r.
  assert (Hback : withPending (pending c)
                    (withPending (pending c ++ [t]) c) = c)
    by (destruct c; reflexivity).
  rewrite Hback.
  destruct t, s; reflexivity.
Qed.

(** X10. A [startTracking] that finds the pedometer unavailable, or whose
    availability check throws, subscribes nothing and leaves the session
    free to be started again: no watcher, no timer and no parked call is
    added, the guard flag stays clear, [isAvailable] is false and the error
    is 'Pedometer is not available on this device', respectively the
    thrown error's message ('Unknown error' when the thrown value is no
    [Error]). *)
Theorem X10_unavailable_start_subscribes_nothing
    (c : Config) (message : option string)
    (Hidle : isInitializedRef (hook c) = false) :
  let started := step CallStartTracking c in
  let unavailable :=
    step (Settle (length (pending c)) (Availability (Resolved false)))
      started in
  let thrown :=
    step (Settle (length (pending c)) (Availability (Rejected message)))
      started in
  (watchers unavailable = watchers c
   /\ intervals unavailable = intervals c
   /\ pending unavailable = pending c
   /\ isInitializedRef (hook unavailable) = false
   /\ isTracking (hook unavailable) = isTracking (hook c)
   /\ isAvailable (hook unavailable) = false
   /\ error (hook unavailable)
      = Some "Pedometer is not available on this device"%string)
  /\ (watchers thrown = watchers c
      /\ intervals thrown = intervals c
      /\ pending thrown = pending c
      /\ isInitializedRef (hook thrown) = false
      /\ isTracking (hook thrown) = false
      /\ isAvailable (hook thrown) = false
      /\ error (hook thrown) = Some (errorMessage message))
  /\ pending (step CallStartTracking unavailable)
     = pending c ++ [StartAwaitsAvailability (hasPermission (hook c))].
Proof.
  cbv zeta.
  assert (Hstart :
    step CallStartTracking c
    = park (StartAwaitsAvailability (hasPermission (hook c))) c)
    by (simpl; unfold startTracking; rewrite Hidle; reflexivity).
  rewrite Hstart.
  change (step (Settle ?i ?s) ?x) with (settle i s x).
  rewrite !settle_last. simpl.
  repeat split; try assumption.
  unfold startTracking; simpl. rewrite Hidle. reflexivity.
Qed.

(** A first start on a device without a pedometer. *)
Lemma X10_unavailable_start_subscribes_nothing_on_mount :
  isInitializedRef (hook (mount expo)) = false
  /\ error
       (hook (run [CallStartTracking; Settle 0 (Availability (Resolved false))]
                (mount expo)))
     = Some "Pedometer is not available on this device"%string.
Proof.
  split; [reflexivity |].
  pose proof (X10_unavailable_start_subscribes_nothing (mount expo) None
                eq_refl) as ((_ & _ & _ & _ & _ & _ & Herror) & _).
  exact Herror.
Defined.

(** X11. A [startTracking] whose permission request is denied subscribes
    nothing either: with no permission held and a platform that can ask,
    once the pedometer is found available and the request is answered by a
    denial, no watcher and no timer is added, nothing stays parked, the
    guard flag stays clear, [hasPermission] is false and the error reads
    'Pedometer permission not granted', also after a denial that cannot be
    asked again. *)
Theorem X11_denied_start_subscribes_nothing
    (c : Config) (response : option PermissionResponse)
    (Hidle : isInitializedRef (hook c) = false)
    (Hnone : hasPermission (hook c) = false)
    (Hasks : hasRequestPermissionsAsync (api c) = true)
    (Hdenied : parsePermission response = false) :
  let asked :=
    run [CallStartTracking;
         Settle (length (pending c)) (Availability (Resolved true))] c in
  let denied :=
    step (Settle (length (pending c)) (Permission (Resolved response)))
      asked in
  pending asked = pending c ++ [StartAwaitsPermission]
  /\ watchers denied = watchers c
  /\ intervals denied = intervals c
  /\ pending denied = pending c
  /\ isInitializedRef (hook denied) = false
  /\ isTracking (hook denied) = isTracking (hook c)
  /\ hasPermission (hook denied) = false
  /\ error (hook denied) = Some "Pedometer permission not granted"%string.
Proof.
  cbv zeta.
  assert (Hasked :
    run [CallStartTracking;
         Settle (length (pending c)) (Availability (Resolved true))] c
    = park StartAwaitsPermission (withHook (setIsAvailable true (hook c)) c)).
  { simpl run. simpl step. unfold startTracking. rewrite Hidle.
    rewrite settle_last. simpl. rewrite Hnone, Hasks. reflexivity. }
  rewrite Hasked. split; [reflexivity |].
  change (step (Settle ?i ?s) ?x) with (settle i s x).
  change (length (pending c))
    with (length (pending (withHook (setIsAvailable true (hook c)) c))).
  rewrite settle_last. unfold startTracking_permission.
  simpl. unfold updatePermissionState. rewrite Hdenied. simpl.
  destruct response as [r |]; simpl;
    [destruct (askAgain r) as [[|] |]; simpl |];
    repeat split; assumption.
Qed.

(** A first start whose permission prompt is refused for good. *)
Lemma X11_denied_start_subscribes_nothing_on_mount :
  let refusal :=
    Some {| granted := Some false; status := Some "denied"%string;
            askAgain := Some false |} in
  parsePermission refusal = false
  /\ error
       (hook (run [CallStartTracking;
                   Settle 0 (Availability (Resolved true));
                   Settle 0 (Permission (Resolved refusal))] (mount expo)))
     = Some "Pedometer permission not granted"%string.
Proof.
  cbv zeta. split; [reflexivity |].
  pose proof (X11_denied_start_subscribes_nothing (mount expo)
                (Some {| granted := Some false; status := Some "denied"%string;
                         askAgain := Some false |})
                eq_refl eq_refl eq_refl eq_refl)
    as (_ & _ & _ & _ & _ & _ & _ & Herror).
  exact Herror.
Defined.

(** **** Callers that do not overlap their starts *)

Import SessionUse.

Lemma starting_park (t : Task) (c : Config) :
  starting (park t c) = (starting c + (if isStart t then 1 else 0))%nat.
Proof.
  unfold starting, park; simpl. rewrite List.filter_app, length_app; simpl.
  destruct (isStart t); reflexivity.
Qed.

Lemma filter_isStart_delete (l : list Task) (i : nat) (t : Task) :
  l !! i = Some t ->
  length (List.filter isStart l)
  = ((if isStart t then 1 else 0)
     + length (List.filter isStart (delete i l)))%nat.
Proof.
  revert i. induction l as [| a l IH]; intros i Hlook; [discriminate |].
  destruct i as [| i]; simpl in *.
  - injection Hlook as ->. destruct (isStart t); reflexivity.
  - specialize (IH i Hlook).
    destruct (isStart a), (isStart t); simpl in *; lia.
Qed.

Lemma starting_none (c : Config) :
  startInFlight c = false <-> starting c = 0%nat.
Proof.
  unfold startInFlight, starting.
  induction (pending c) as [| a l IH]; simpl; [tauto |].
  destruct (isStart a); simpl; [split; [discriminate | lia] | exact IH].
Qed.

(** What an orderly session keeps true. *)
Lemma exclusive_same (c c' : Config) :
  watchers c' = watchers c -> intervals c' = intervals c ->
  isInitializedRef (hook c') = isInitializedRef (hook c) ->
  subscriptionRef (hook c') = subscriptionRef (hook c) ->
  pollIntervalRef (hook c') = pollIntervalRef (hook c) ->
  exclusive c -> exclusive c'.
Proof.
  unfold exclusive, heldWatchers, heldIntervals.
  intros -> -> -> -> ->. tauto.
Qed.

Lemma exclusive_idle (c : Config) :
  exclusive c -> isInitializedRef (hook c) = false ->
  watchers c = ∅ /\ intervals c = ∅.
Proof.
  unfold exclusive, heldWatchers, heldIntervals. intros [Hw Ht] Hidle.
  rewrite Hidle in *. split; apply nothing_held; assumption.
Qed.

Lemma exclusive_begin (c : Config) :
  watchers c = ∅ -> intervals c = ∅ -> exclusive (beginTracking c).
Proof.
  intros Hw Ht. unfold exclusive, heldWatchers, heldIntervals; simpl.
  rewrite Hw, Ht. split; intros x; rewrite elem_of_union, elem_of_empty; tauto.
Qed.

Lemma requestPermission_settled_refs
    (r : os (option PermissionResponse)) (h : Hook) :
  let h' := snd (requestPermission_settled r h) in
  isTracking h' = isTracking h
  /\ isInitializedRef h' = isInitializedRef h
  /\ subscriptionRef h' = subscriptionRef h
  /\ pollIntervalRef h' = pollIntervalRef h
  /\ startDateRef h' = startDateRef h.
Proof.
  destruct r as [response | message]; simpl; [| repeat split].
  unfold updatePermissionState.
  destruct (parsePermission response); simpl;
    destruct response as [r |]; simpl;
    try destruct (askAgain r) as [[|] |]; simpl;
    try destruct (mentionsPermission (error h)); repeat split.
Qed.

Lemma onPollSettled_refs (r : os Z) (h : Hook) :
  isTracking (onPollSettled r h) = isTracking h
  /\ isInitializedRef (onPollSettled r h) = isInitializedRef h
  /\ subscriptionRef (onPollSettled r h) = subscriptionRef h
  /\ pollIntervalRef (onPollSettled r h) = pollIntervalRef h
  /\ startDateRef (onPollSettled r h) = startDateRef h.
Proof.
  destruct r as [v | m]; simpl; [destruct (0 <? v) |]; repeat split.
Qed.

(** Closes a case in which the event left the session as it was. *)
Ltac same_session Hexcl Hone Hinit :=
  split; [exact Hexcl |];
  split; [exact Hone |];
  let Htrue := fresh "Htrue" in
  intros Htrue;
  first [discriminate Htrue
        | apply Hinit; first [exact Htrue | reflexivity]
        | congruence].

Lemma orderly_step (e : Event) (c : Config) :
  exclusive c ->
  (starting c <= 1)%nat ->
  (isInitializedRef (hook c) = true -> starting c = 0%nat) ->
  allowed e c = true ->
  exclusive (step e c)
  /\ (starting (step e c) <= 1)%nat
  /\ (isInitializedRef (hook (step e c)) = true ->
      starting (step e c) = 0%nat).
Proof.
  intros Hexcl Hone Hinit Hallowed.
  destruct e as [| | | ms | w v | t | i s]; simpl.
  - simpl in Hallowed. apply negb_true_iff, starting_none in Hallowed.
    unfold startTracking.
    destruct (isInitializedRef (hook c)) eqn:Hflag; [same_session Hexcl Hone Hinit |].
    split; [| split].
    + eapply exclusive_same; [.. | exact Hexcl]; reflexivity.
    + rewrite starting_park, Hallowed. simpl. lia.
    + simpl. congruence.
  - unfold stopTracking.
    destruct (isInitializedRef (hook c)) eqn:Hflag; simpl;
      [| same_session Hexcl Hone Hinit].
    split; [| split; [exact Hone | discriminate]].
    destruct Hexcl as [Hw Ht].
    unfold exclusive, heldWatchers, heldIntervals in *; simpl.
    rewrite Hflag in Hw, Ht.
    destruct (subscriptionRef (hook c)), (pollIntervalRef (hook c));
      rewrite ?(released_held _ _ Hw), ?(released_held _ _ Ht),
        ?(nothing_held _ Hw), ?(nothing_held _ Ht); split; reflexivity.
  - split; [| split; [exact Hone | exact Hinit]].
    eapply exclusive_same; [.. | exact Hexcl]; reflexivity.
  - split; [| split; [exact Hone | exact Hinit]].
    eapply exclusive_same; [.. | exact Hexcl]; reflexivity.
  - destruct (bool_decide (w ∈ watchers c)); [| same_session Hexcl Hone Hinit].
    split; [| split; [exact Hone | exact Hinit]].
    eapply exclusive_same; [.. | exact Hexcl]; reflexivity.
  - destruct (bool_decide (t ∈ intervals c)); [| same_session Hexcl Hone Hinit].
    unfold onInterval. destruct (startDateRef (hook c)); [| same_session Hexcl Hone Hinit].
    split; [| split].
    + eapply exclusive_same; [.. | exact Hexcl]; reflexivity.
    + rewrite starting_park. simpl. lia.
    + rewrite starting_park. simpl. intros Hflag. rewrite (Hinit Hflag).
      reflexivity.
  - unfold settle.
    destruct (pending c !! i) as [task |] eqn:Hlook; [| same_session Hexcl Hone Hinit].
    pose proof (filter_isStart_delete _ _ _ Hlook) as Hcount.
    fold (starting c) in Hcount.
    set (c0 := withPending (delete i (pending c)) c).
    assert (Hrest : starting c
                    = ((if isStart task then 1 else 0) + starting c0)%nat)
      by exact Hcount.
    destruct task as [seen | | start], s as [r | r | r]; try same_session Hexcl Hone Hinit.
    + simpl in Hrest.
      assert (Hidle : isInitializedRef (hook c) = false).
      { destruct (isInitializedRef (hook c)); [| reflexivity].
        specialize (Hinit eq_refl). lia. }
      destruct (exclusive_idle c Hexcl Hidle) as [Hw Ht].
      assert (Hnone : starting c0 = 0%nat) by lia.
      unfold startTracking_available.
      destruct r as [[|] | message]; simpl.
      * destruct seen; [| destruct (hasRequestPermissionsAsync (api c))].
        -- split; [apply exclusive_begin; assumption |].
           split; [change (starting c0 <= 1)%nat; lia | intros _; exact Hnone].
        -- split; [| split].
           ++ eapply exclusive_same; [.. | exact Hexcl]; reflexivity.
           ++ rewrite starting_park. simpl.
              change (starting c0 + 1 <= 1)%nat. lia.
           ++ simpl. congruence.
        -- split; [apply exclusive_begin; assumption |].
           split; [change (starting c0 <= 1)%nat; lia | intros _; exact Hnone].
      * split; [| split;
          [change (starting c0 <= 1)%nat; lia | intros _; exact Hnone]].
        eapply exclusive_same; [.. | exact Hexcl]; reflexivity.
      * split; [| split;
          [change (starting c0 <= 1)%nat; lia | intros _; exact Hnone]].
        eapply exclusive_same; [.. | exact Hexcl]; reflexivity.
    + simpl in Hrest.
      assert (Hidle : isInitializedRef (hook c) = false).
      { destruct (isInitializedRef (hook c)); [| reflexivity].
        specialize (Hinit eq_refl). lia. }
      destruct (exclusive_idle c Hexcl Hidle) as [Hw Ht].
      assert (Hnone : starting c0 = 0%nat) by lia.
      unfold startTracking_permission.
      pose proof (requestPermission_settled_refs r (hook c0))
        as (_ & Hflag & Hsub & Hpoll & _).
      destruct (requestPermission_settled r (hook c0)) as [ok h'];
        simpl in *.
      destruct ok.
      * split; [apply exclusive_begin; assumption |].
        split; [change (starting c0 <= 1)%nat; lia | intros _; exact Hnone].
      * split; [| split;
          [change (starting c0 <= 1)%nat; lia | intros _; exact Hnone]].
        eapply exclusive_same; [.. | exact Hexcl];
          first [reflexivity | assumption].
    + simpl in Hrest.
      pose proof (onPollSettled_refs r (hook c0))
        as (_ & Hflag & Hsub & Hpoll & _).
      split; [| split].
      * eapply exclusive_same; [.. | exact Hexcl];
          first [reflexivity | assumption].
      * change (starting c0 <= 1)%nat. lia.
      * intros Htrue. change (starting c0 = 0%nat).
        assert (Hwas : isInitializedRef (hook c) = true)
          by (rewrite <- Htrue; symmetry; exact Hflag).
        specialize (Hinit Hwas). lia.
Qed.

Lemma orderly_run (es : list Event) (c : Config) :
  exclusive c ->
  (starting c <= 1)%nat ->
  (isInitializedRef (hook c) = true -> starting c = 0%nat) ->
  sequential es c = true ->
  exclusive (run es c).
Proof.
  revert c. induction es as [| e es IH]; intros c Hexcl Hone Hinit Hseq;
    simpl; [exact Hexcl |].
  simpl in Hseq. apply andb_prop in Hseq as [Hallowed Hseq].
  destruct (orderly_step e c Hexcl Hone Hinit Hallowed) as (He & Ho & Hi).
  apply IH; assumption.
Qed.

Lemma exclusive_sizes (c : Config) :
  exclusive c -> (size (watchers c) <= 1)%nat /\ (size (intervals c) <= 1)%nat.
Proof.
  intros [Hw Ht]. apply subseteq_size in Hw. apply subseteq_size in Ht.
  unfold heldWatchers, heldIntervals in *.
  destruct (isInitializedRef (hook c)), (subscriptionRef (hook c)),
    (pollIntervalRef (hook c));
    rewrite ?size_singleton, ?size_empty in Hw;
    rewrite ?size_singleton, ?size_empty in Ht; lia.
Qed.

(** X12. A caller that never calls [startTracking] while an earlier call
    is still starting cannot leak: from a session with no watcher, no timer
    and nothing parked, after any events in which every [startTracking]
    comes when no start is in flight (stops, resets, pushes, ticks and
    settlements in any order), every live watcher and timer is the one the
    session holds, so there is at most one of each. *)
Theorem X12_sequential_starts_hold_one_subscription
    (c : Config) (es : list Event)
    (Hwatchers : watchers c = ∅)
    (Hintervals : intervals c = ∅)
    (Hpending : pending c = [])
    (Hsequential : sequential es c = true) :
  exclusive (run es c)
  /\ (size (watchers (run es c)) <= 1)%nat
  /\ (size (intervals (run es c)) <= 1)%nat.
Proof.
  assert (Hexcl : exclusive (run es c)).
  { apply orderly_run; try assumption.
    - unfold exclusive. rewrite Hwatchers, Hintervals.
      split; intros x Hx; rewrite elem_of_empty in Hx; tauto.
    - unfold starting. rewrite Hpending. simpl. lia.
    - intros _. unfold starting. rewrite Hpending. reflexivity. }
  split; [exact Hexcl | apply exclusive_sizes, Hexcl].
Qed.

(** Start, walk, stop, start again, with a start requested while
    tracking. *)
Lemma X12_sequential_starts_hold_one_subscription_run :
  let es :=
    [CallStartTracking; Settle 0 (Availability (Resolved true)); Push 0 9;
     CallStartTracking; Tick 1; CallStopTracking; CallStartTracking;
     Settle 1 (Availability (Resolved true));
     Settle 0 (StepCount (Resolved 11))] in
  sequential es ready = true
  /\ isTracking (hook (run es ready)) = true
  /\ (size (watchers (run es ready)) <= 1)%nat.
Proof.
  cbv zeta.
  assert (Hsequential :
    sequential
      [CallStartTracking; Settle 0 (Availability (Resolved true)); Push 0 9;
       CallStartTracking; Tick 1; CallStopTracking; CallStartTracking;
       Settle 1 (Availability (Resolved true));
       Settle 0 (StepCount (Resolved 11))] ready = true)
    by (vm_compute; reflexivity).
  split; [exact Hsequential |]. split; [vm_compute; reflexivity |].
  pose proof (X12_sequential_starts_hold_one_subscription ready _
                eq_refl eq_refl eq_refl Hsequential) as (_ & Hone & _).
  exact Hone.
Defined.

(** **** What the tracking flag tells *)

Lemma live_kept (c c' : Config) :
  (isTracking (hook c') = true -> isTracking (hook c) = true) ->
  isInitializedRef (hook c') = isInitializedRef (hook c) ->
  subscriptionRef (hook c') = subscriptionRef (hook c) ->
  pollIntervalRef (hook c') = pollIntervalRef (hook c) ->
  startDateRef (hook c') = startDateRef (hook c) ->
  watchers c' = watchers c ->
  intervals c' = intervals c ->
  truthful c -> truthful c'.
Proof.
  intros Htrack Hflag Hsub Hpoll Hstart Hw Ht [Hon Hheld].
  unfold truthful, holdsChannels in *.
  rewrite Hflag, Hsub, Hpoll, Hstart, Hw, Ht.
  split; [intros Htrue; apply Hon, Htrack, Htrue | exact Hheld].
Qed.

Lemma live_begin (c : Config) : truthful (beginTracking c).
Proof.
  split; [reflexivity |]. intros _.
  exists (Session.handles c), (S (Session.handles c)), (clock c). simpl.
  repeat split; rewrite elem_of_union, elem_of_singleton; left; reflexivity.
Qed.

#[local] Arguments truthful : simpl never.

Ltac live_same c Hlive :=
  apply (live_kept c); [.. | exact Hlive]; simpl;
  first [reflexivity | assumption | intros; assumption | discriminate
        | intros; congruence].

Lemma live_step (e : Event) (c : Config) :
  truthful c -> truthful (step e c).
Proof.
  intros Hlive.
  destruct e as [| | | ms | w v | t | i s]; simpl.
  - unfold startTracking.
    destruct (isInitializedRef (hook c)); [exact Hlive | live_same c Hlive].
  - unfold stopTracking.
    destruct (isInitializedRef (hook c)); simpl; [| exact Hlive].
    split; discriminate.
  - live_same c Hlive.
  - live_same c Hlive.
  - destruct (bool_decide (w ∈ watchers c)); [live_same c Hlive | exact Hlive].
  - destruct (bool_decide (t ∈ intervals c)); [| exact Hlive].
    unfold onInterval.
    destruct (startDateRef (hook c)); [live_same c Hlive | exact Hlive].
  - unfold settle.
    destruct (pending c !! i) as [task |]; [| exact Hlive].
    destruct task as [seen | | start], s as [r | r | r]; try exact Hlive.
    + unfold startTracking_available.
      destruct r as [[|] | message]; simpl.
      * destruct seen; [apply live_begin |].
        destruct (hasRequestPermissionsAsync (api c));
          [live_same c Hlive | apply live_begin].
      * live_same c Hlive.
      * live_same c Hlive.
    + unfold startTracking_permission.
      pose proof (requestPermission_settled_refs r (hook c))
        as (Htrack & Hflag & Hsub & Hpoll & Hstart).
      simpl.
      destruct (requestPermission_settled r (hook c)) as [ok h'];
        simpl in *.
      destruct ok; [apply live_begin | live_same c Hlive].
    + pose proof (onPollSettled_refs r (hook c))
        as (Htrack & Hflag & Hsub & Hpoll & Hstart).
      live_same c Hlive.
Qed.

Lemma live_run (es : list Event) (c : Config) :
  truthful c -> truthful (run es c).
Proof.
  revert c. induction es as [| e es IH]; intros c Hlive; simpl;
    [exact Hlive |].
  apply IH, live_step, Hlive.
Qed.

(** X13. The tracking flag is truthful.  From a session that is neither
    initialised nor tracking, whatever calls, pushes, ticks and
    settlements follow, in any order and overlapping or not: whenever
    [isTracking] is true the session is initialised and holds a watcher
    and a poll timer that are both live, with its start date set. *)
Theorem X13_tracking_flag_means_live_channels
    (c : Config) (es : list Event)
    (Hidle : isInitializedRef (hook c) = false)
    (Hoff : isTracking (hook c) = false)
    (Htracking : isTracking (hook (run es c)) = true) :
  isInitializedRef (hook (run es c)) = true /\ holdsChannels (run es c).
Proof.
  assert (Hlive : truthful c) by (split; congruence).
  destruct (live_run es c Hlive) as [Hon Hheld].
  split; [apply Hon, Htracking | apply Hheld, Hon, Htracking].
Qed.

(** Two overlapping starts, one stop: the session still tracks nothing it
    does not hold. *)
Lemma X13_tracking_flag_means_live_channels_run :
  let es :=
    [CallStartTracking; CallStartTracking;
     Settle 0 (Availability (Resolved true)); CallStopTracking;
     Settle 0 (Availability (Resolved true)); Push 2 5] in
  isTracking (hook (run es ready)) = true
  /\ holdsChannels (run es ready).
Proof.
  cbv zeta.
  assert (Htracking :
    isTracking
      (hook (run [CallStartTracking; CallStartTracking;
                  Settle 0 (Availability (Resolved true)); CallStopTracking;
                  Settle 0 (Availability (Resolved true)); Push 2 5] ready))
    = true) by (vm_compute; reflexivity).
  split; [exact Htracking |].
  pose proof (X13_tracking_flag_means_live_channels ready _
                eq_refl eq_refl Htracking) as (_ & Hheld).
  exact Hheld.
Defined.

(** *** What the power display shows *)

(** X14. The permission banner follows the answer to the request.  After
    [requestPermission] is answered by a refusal that cannot be asked
    again, the hook holds no permission, [canAskAgain] is false, the error
    tells the user to enable Motion & Fitness in Settings, and the banner
    offers the button that opens the settings, not the one that asks
    again.  After a refusal that can be asked again the banner offers to
    grant the permission, and after a grant there is no banner. *)
Theorem X14_refusal_for_good_offers_settings
    (p : Platform) (h : Hook) (r : PermissionResponse)
    (Hasks : hasRequestPermissionsAsync p = true)
    (Hdenied : parsePermission (Some r) = false)
    (Hfinal : askAgain r = Some false) :
  let h' := snd (requestPermission p (Resolved (Some r)) h) in
  (fst (requestPermission p (Resolved (Some r)) h) = false
   /\ hasPermission h' = false
   /\ canAskAgain h' = false
   /\ error h'
      = Some "Permission denied. Please enable Motion & Fitness in Settings."%string
   /\ Display.permissionBanner (hasPermission h') (canAskAgain h')
      = Some ("Permission denied. Please enable Motion & Fitness in Settings."%string,
              Display.OpenSettings))
  /\ (forall r' : PermissionResponse,
        parsePermission (Some r') = false -> askAgain r' = Some true ->
        let h'' := snd (requestPermission p (Resolved (Some r')) h) in
        Display.permissionBanner (hasPermission h'') (canAskAgain h'')
        = Some ("Step tracking requires motion permission."%string,
                Display.GrantPermission))
  /\ (forall response : option PermissionResponse,
        parsePermission response = true ->
        let h'' := snd (requestPermission p (Resolved response) h) in
        Display.permissionBanner (hasPermission h'') (canAskAgain h'')
        = None).
Proof.
  cbv zeta. unfold requestPermission. rewrite Hasks.
  unfold requestPermission_settled, updatePermissionState.
  split; [| split].
  - rewrite Hdenied. simpl. rewrite Hfinal. simpl. repeat split.
  - intros r' Hdenied' Hagain. rewrite Hdenied'. simpl. rewrite Hagain.
    reflexivity.
  - intros response Hgranted. rewrite Hgranted. simpl.
    destruct response as [r' |]; simpl;
      [destruct (askAgain r') as [[|] |] |];
      destruct (mentionsPermission (error h)); reflexivity.
Qed.

(** The prompt refused for good on a freshly mounted hook. *)
Lemma X14_refusal_for_good_offers_settings_on_mount :
  let refusal :=
    {| granted := Some false; status := Some "denied"%string;
       askAgain := Some false |} in
  let h' :=
    snd (requestPermission expo (Resolved (Some refusal))
           (hook (mount expo))) in
  parsePermission (Some refusal) = false
  /\ Display.permissionBanner (hasPermission h') (canAskAgain h')
     = Some ("Permission denied. Please enable Motion & Fitness in Settings."%string,
             Display.OpenSettings).
Proof.
  cbv zeta. split; [reflexivity |].
  pose proof (X14_refusal_for_good_offers_settings expo (hook (mount expo))
                {| granted := Some false; status := Some "denied"%string;
                   askAgain := Some false |} eq_refl eq_refl eq_refl)
    as ((_ & _ & _ & _ & Hbanner) & _).
  exact Hbanner.
Defined.




(** *** The directory's URLs *)

Import DecimalString.





Lemma firstMatch_base (tail : string) :
  Api.firstMatch (Api.BASE_URL ++ tail) = Api.firstMatch tail.
Proof. reflexivity. Qed.




Lemma firstMatch_digits (u : Decimal.uint) :
  Api.firstMatch (NilEmpty.string_of_uint u) = None.
Proof. induction u; cbn; assumption || reflexivity. Qed.

Lemma takeDigits_digits (u : Decimal.uint) :
  Api.takeDigits (NilEmpty.string_of_uint u)
  = (NilEmpty.string_of_uint u, EmptyString).
Proof. induction u; simpl; rewrite ?IHu; reflexivity. Qed.

Lemma firstMatch_number (i : Decimal.int) :
  Api.firstMatch (String "/" (NilEmpty.string_of_int i)) = None.
Proof.
  assert (Hinside : Api.firstMatch (NilEmpty.string_of_int i) = None).
  { destruct i as [u | u]; simpl NilEmpty.string_of_int;
      [apply firstMatch_digits |].
    cbn. apply firstMatch_digits. }
  cbn [Api.firstMatch]. rewrite Hinside.
  destruct i as [u | u]; destruct u; reflexivity.
Qed.

Lemma matchAt_unclosed (i : Decimal.int) :
  Api.matchAt ("/pokemon/" ++ NilEmpty.string_of_int i) = None.
Proof.
  unfold Api.matchAt. simpl Api.afterPrefix.
  change (String.append "" ?x) with x. cbv beta iota.
  destruct i as [u | u]; simpl NilEmpty.string_of_int.
  - rewrite takeDigits_digits.
    destruct (NilEmpty.string_of_uint u); reflexivity.
  - reflexivity.
Qed.

(** X17. [extractPokemonIdFromUrl] never returns a negative id, and it
    needs the slash that closes the id: from the URL that [getPokemonById]
    itself requests ([.../pokemon/<id>], nothing after the id) it returns
    0, for every id. *)
Theorem X17_id_needs_closing_slash (url : string) (id : Z) :
  0 <= Api.extractPokemonIdFromUrl url
  /\ Api.extractPokemonIdFromUrl (Api.getPokemonByIdUrl id) = 0.
Proof.
  split.
  - unfold Api.extractPokemonIdFromUrl, Api.parseInt.
    destruct (Api.firstMatch url) as [ds |]; [| lia].
    destruct (NilEmpty.uint_of_string ds) as [d |]; [| lia].
    unfold Z.of_uint. apply N2Z.is_nonneg.
  - unfold Api.extractPokemonIdFromUrl, Api.getPokemonByIdUrl,
      Api.numberToString.
    rewrite firstMatch_base.
    assert (Hnone :
      Api.firstMatch ("/pokemon/" ++ NilEmpty.string_of_int (Z.to_int id))
      = None).
    { pose proof (matchAt_unclosed (Z.to_int id)) as Hhere.
      pose proof (firstMatch_number (Z.to_int id)) as Hlater.
      revert Hhere Hlater.
      generalize (NilEmpty.string_of_int (Z.to_int id)). intros n Hhere Hlater.
      change (String.append "/pokemon/" n)
        with (String "/" (String.append "pokemon/" n)) in *.
      cbn [Api.firstMatch]. rewrite Hhere.
      cbn. cbn in Hlater. exact Hlater. }
    rewrite Hnone. reflexivity.
Qed.






(** *** The step tracker module *)

Lemma tracker_op (o : StepTracker.Op) (t : StepTracker.Tracker) :
  StepTracker.eventEmitter t = true ->
  (StepTracker.subscription t = None
   /\ StepTracker.emitterListeners t = []
   /\ StepTracker.stepUpdateListeners t = []
   \/ exists h : nat,
        StepTracker.subscription t = Some h
        /\ StepTracker.emitterListeners t = [h]) ->
  StepTracker.eventEmitter (StepTracker.apply o t) = true
  /\ StepTracker.stepUpdateListeners (StepTracker.apply o t)
     = StepTracker.registered [o] (StepTracker.stepUpdateListeners t)
  /\ (StepTracker.subscription (StepTracker.apply o t) = None
      /\ StepTracker.emitterListeners (StepTracker.apply o t) = []
      /\ StepTracker.stepUpdateListeners (StepTracker.apply o t) = []
      \/ exists h : nat,
           StepTracker.subscription (StepTracker.apply o t) = Some h
           /\ StepTracker.emitterListeners (StepTracker.apply o t) = [h]).
Proof.
  intros Hemitter Hshape.
  destruct o as [callback |]; simpl.
  - unfold StepTracker.onStepUpdate. rewrite Hemitter. simpl.
    destruct Hshape as [(Hsub & Hnative & Hnone) | (h & Hsub & Hnative)];
      rewrite Hsub; simpl.
    + split; [first [exact Hemitter | reflexivity] |]. split; [reflexivity |].
      right. exists (StepTracker.handles t). rewrite Hnative.
      split; reflexivity.
    + split; [first [exact Hemitter | reflexivity] |]. split; [reflexivity |].
      right. exists h. split; [reflexivity | exact Hnative].
  - unfold StepTracker.removeStepUpdateListener.
    destruct Hshape as [(Hsub & Hnative & Hnone) | (h & Hsub & Hnative)];
      rewrite Hsub; simpl.
    + split; [first [exact Hemitter | reflexivity] |]. split; [reflexivity |].
      left. repeat split. exact Hnative.
    + split; [first [exact Hemitter | reflexivity] |]. split; [reflexivity |].
      left. repeat split. rewrite Hnative.
      rewrite filter_cons_False by (intros Hne; apply Hne; reflexivity).
      reflexivity.
Qed.

Lemma tracker_registry (os : list StepTracker.Op) (t : StepTracker.Tracker) :
  StepTracker.eventEmitter t = true ->
  (StepTracker.subscription t = None
   /\ StepTracker.emitterListeners t = []
   /\ StepTracker.stepUpdateListeners t = []
   \/ exists h : nat,
        StepTracker.subscription t = Some h
        /\ StepTracker.emitterListeners t = [h]) ->
  StepTracker.stepUpdateListeners (StepTracker.applyAll os t)
  = StepTracker.registered os (StepTracker.stepUpdateListeners t)
  /\ (StepTracker.subscription (StepTracker.applyAll os t) = None
      /\ StepTracker.emitterListeners (StepTracker.applyAll os t) = []
      /\ StepTracker.stepUpdateListeners (StepTracker.applyAll os t) = []
      \/ exists h : nat,
           StepTracker.subscription (StepTracker.applyAll os t) = Some h
           /\ StepTracker.emitterListeners (StepTracker.applyAll os t) = [h]).
Proof.
  revert t. induction os as [| o os IH]; intros t Hemitter Hshape;
    [split; [reflexivity | exact Hshape] |].
  destruct (tracker_op o t Hemitter Hshape) as (Hemitter' & Hlist & Hshape').
  destruct (IH _ Hemitter' Hshape') as [Hregistered Hfinal].
  change (StepTracker.applyAll (o :: os) t)
    with (StepTracker.applyAll os (StepTracker.apply o t)).
  split; [| exact Hfinal].
  rewrite Hregistered, Hlist. destruct o; reflexivity.
Qed.

Lemma tracker_without_emitter (os : list StepTracker.Op)
    (t : StepTracker.Tracker) :
  StepTracker.eventEmitter t = false ->
  StepTracker.subscription t = None ->
  StepTracker.emitterListeners t = [] ->
  StepTracker.emitterListeners (StepTracker.applyAll os t) = [].
Proof.
  revert t. induction os as [| o os IH]; intros t Hemitter Hsub Hnative;
    simpl; [exact Hnative |].
  destruct o as [callback |]; simpl.
  - unfold StepTracker.onStepUpdate. rewrite Hemitter. simpl.
    apply IH; assumption.
  - unfold StepTracker.removeStepUpdateListener. rewrite Hsub.
    apply IH; simpl; first [assumption | reflexivity].
Qed.

(** X19. The step tracker fans one native subscription out to its
    callbacks.  After any sequence of [onStepUpdate] and
    [removeStepUpdateListener] calls on a tracker that has the native
    module, the emitter has at most one listener, and an event reaches
    exactly the callbacks registered since the last removal, each once per
    registration and in the order of registration, with the count taken
    from the event; an event that carries an error or no numeric count
    reaches none.  [removeStepUpdateListener] thus unregisters every
    callback, not one.  Without the native module no callback is ever
    reached. *)
Theorem X19_tracker_reaches_registered_callbacks
    (os : list StepTracker.Op) (d : StepTracker.Data) :
  let t := StepTracker.applyAll os (StepTracker.create true) in
  (length (StepTracker.emitterListeners t) <= 1)%nat
  /\ StepTracker.emit d t
     = match StepTracker.extractSteps d with
       | Some steps =>
           map (fun callback => (callback, steps))
             (StepTracker.registered os [])
       | None => []
       end
  /\ StepTracker.emit d
       (StepTracker.applyAll (os ++ [StepTracker.RemoveStepUpdateListener])
          (StepTracker.create true)) = []
  /\ StepTracker.emit d (StepTracker.applyAll os (StepTracker.create false))
     = [].
Proof.
  cbv zeta.
  assert (Hstart :
    StepTracker.subscription (StepTracker.create true) = None
    /\ StepTracker.emitterListeners (StepTracker.create true) = []
    /\ StepTracker.stepUpdateListeners (StepTracker.create true) = []
    \/ exists h : nat,
         StepTracker.subscription (StepTracker.create true) = Some h
         /\ StepTracker.emitterListeners (StepTracker.create true) = [h])
    by (left; repeat split).
  assert (Hemit : forall os' : list StepTracker.Op,
    (length (StepTracker.emitterListeners
               (StepTracker.applyAll os' (StepTracker.create true))) <= 1)%nat
    /\ StepTracker.emit d (StepTracker.applyAll os' (StepTracker.create true))
       = match StepTracker.extractSteps d with
         | Some steps =>
             map (fun callback => (callback, steps))
               (StepTracker.registered os' [])
         | None => []
         end).
  { intros os'.
    destruct (tracker_registry os' (StepTracker.create true) eq_refl Hstart)
      as [Hregistered Hshape].
    simpl in Hregistered.
    unfold StepTracker.emit, StepTracker.handle.
    rewrite Hregistered.
    destruct Hshape as [(_ & Hnative & Hnone) | (h & _ & Hnative)];
      rewrite Hnative; simpl.
    - split; [lia |]. rewrite <- Hregistered, Hnone.
      destruct (StepTracker.extractSteps d); reflexivity.
    - split; [lia |]. rewrite app_nil_r. reflexivity. }
  split; [apply Hemit |]. split; [apply Hemit |]. split.
  - destruct (Hemit (os ++ [StepTracker.RemoveStepUpdateListener]))
      as [_ ->].
    assert (Hcleared : forall acc : list nat,
      StepTracker.registered
        (os ++ [StepTracker.RemoveStepUpdateListener]) acc = []).
    { induction os as [| o os' IH]; intros acc; simpl; [reflexivity |].
      destruct o; apply IH. }
    rewrite Hcleared. destruct (StepTracker.extractSteps d); reflexivity.
  - unfold StepTracker.emit.
    rewrite (tracker_without_emitter os (StepTracker.create false))
      by reflexivity.
    reflexivity.
Qed.

(** *** The list screen *)

Lemma take_next_page {A : Type} (all : list A) (n : nat) :
  take n all ++ take ListScreen.ITEMS_PER_PAGE (drop n all)
  = take (length (take n all
                  ++ take ListScreen.ITEMS_PER_PAGE (drop n all))) all.
Proof.
  rewrite take_take_drop, length_take.
  destruct (Nat.le_gt_cases (n + ListScreen.ITEMS_PER_PAGE) (length all))
    as [Hle | Hgt].
  - rewrite Nat.min_l by exact Hle. reflexivity.
  - rewrite Nat.min_r by lia. rewrite !take_ge by lia. reflexivity.
Qed.

Lemma paging_step (all : list ListScreen.PokemonListItem)
    (e : ListScreen.Event) (s : ListScreen.Screen) :
  ListScreen.pokemonList s
  = take (length (ListScreen.pokemonList s)) all ->
  (ListScreen.inFlight s = []
   \/ ListScreen.inFlight s
      = [{| ListScreen.isRefresh := false;
            ListScreen.offset := length (ListScreen.pokemonList s) |}]
      /\ ListScreen.isLoading s = true) ->
  let s' := ListScreen.step all e s in
  ListScreen.pokemonList s'
  = take (length (ListScreen.pokemonList s')) all
  /\ (ListScreen.inFlight s' = []
      \/ ListScreen.inFlight s'
         = [{| ListScreen.isRefresh := false;
               ListScreen.offset := length (ListScreen.pokemonList s') |}]
         /\ ListScreen.isLoading s' = true).
Proof.
  intros Hprefix Hflight. cbv zeta.
  destruct e as [| i | i message]; simpl.
  - unfold ListScreen.handleLoadMore.
    destruct Hflight as [Hnone | [Hone Hloading]].
    + destruct (ListScreen.hasNext s && negb (ListScreen.isLoading s));
        simpl; [| split; [exact Hprefix | left; exact Hnone]].
      split; [exact Hprefix |]. right. rewrite Hnone. split; reflexivity.
    + rewrite Hloading, andb_false_r.
      split; [exact Hprefix | right; split; assumption].
  - destruct Hflight as [Hnone | [Hone Hloading]].
    + rewrite Hnone. simpl. split; [exact Hprefix | left; exact Hnone].
    + rewrite Hone. destruct i as [| i]; simpl;
        [| split; [exact Hprefix | right; split; assumption]].
      unfold ListScreen.settleLoad. rewrite Hone. simpl.
      split; [| left; reflexivity].
      rewrite Hprefix at 1 2. rewrite length_take.
      replace (length (ListScreen.pokemonList s)
                 `min` length all)%nat
        with (length (ListScreen.pokemonList s))
        by (rewrite Hprefix at 1; rewrite length_take; lia).
      rewrite <- Hprefix at 1.
      rewrite Hprefix at 1 3. apply take_next_page.
  - unfold ListScreen.settleLoad.
    destruct Hflight as [Hnone | [Hone Hloading]].
    + rewrite Hnone. simpl. split; [exact Hprefix | left; exact Hnone].
    + rewrite Hone. destruct i as [| i]; simpl;
        [split; [exact Hprefix | left; reflexivity]
        | split; [exact Hprefix | right; split; assumption]].
Qed.

Lemma paging_run (all : list ListScreen.PokemonListItem)
    (es : list ListScreen.Event) (s : ListScreen.Screen) :
  ListScreen.pokemonList s
  = take (length (ListScreen.pokemonList s)) all ->
  (ListScreen.inFlight s = []
   \/ ListScreen.inFlight s
      = [{| ListScreen.isRefresh := false;
            ListScreen.offset := length (ListScreen.pokemonList s) |}]
      /\ ListScreen.isLoading s = true) ->
  ListScreen.pokemonList (ListScreen.run all es s)
  = take (length (ListScreen.pokemonList (ListScreen.run all es s))) all
  /\ (length (ListScreen.inFlight (ListScreen.run all es s)) <= 1)%nat.
Proof.
  revert s. induction es as [| e es IH]; intros s Hprefix Hflight; simpl.
  - split; [exact Hprefix |].
    destruct Hflight as [-> | [-> _]]; simpl; lia.
  - destruct (paging_step all e s Hprefix Hflight) as [Hprefix' Hflight'].
    apply IH; assumption.
Qed.

(** X20. Between refreshes the list screen loads the directory in order
    and without overlap.  Taking the directory to answer each request with
    the slice of its list at the requested offset: after the mount and any
    sequence of end-reached events, answers and failures, in any order,
    the items shown are a prefix of the directory's list, so none is
    skipped or shown twice, and the names used as list keys are distinct
    if the directory's are; at most one request is in flight, because an
    end-reached event while one is loading requests nothing. *)
Theorem X20_list_grows_as_a_prefix
    (all : list ListScreen.PokemonListItem) (es : list ListScreen.Event) :
  let s := ListScreen.run all es ListScreen.mounted in
  ListScreen.pokemonList s = take (length (ListScreen.pokemonList s)) all
  /\ (length (ListScreen.inFlight s) <= 1)%nat
  /\ (NoDup (ListScreen.name <$> all) ->
      NoDup (ListScreen.name <$> ListScreen.pokemonList s))
  /\ ListScreen.pokemonList
       (ListScreen.run all [ListScreen.Answered 0] ListScreen.mounted)
     = take ListScreen.ITEMS_PER_PAGE all.
Proof.
  cbv zeta.
  destruct (paging_run all es ListScreen.mounted) as [Hprefix Hone];
    [reflexivity | right; split; reflexivity |].
  split; [exact Hprefix |]. split; [exact Hone |]. split.
  - intros Hnames. rewrite Hprefix, fmap_take.
    exact (sublist_NoDup _ _ Hnames (sublist_take _ _)).
  - reflexivity.
Qed.

(** X21. A refresh replaces, a failure keeps.  With nothing else in
    flight, a refresh that the directory answers leaves exactly the first
    page on the screen, whatever was loaded before, with both spinners off
    and no error; a refresh that fails leaves the loaded items and the next
    link as they were, turns both spinners off and reports the thrown
    error's message ('Failed to load Pokemon' when the thrown value is no
    [Error]). *)
Theorem X21_refresh_replaces_failure_keeps
    (all : list ListScreen.PokemonListItem) (s : ListScreen.Screen)
    (message : option string)
    (Hquiet : ListScreen.inFlight s = []) :
  let refreshing := ListScreen.handleRefresh s in
  let answered :=
    ListScreen.settleLoad 0
      (Resolved
         (ListScreen.serve all
            {| ListScreen.isRefresh := true; ListScreen.offset := 0 |}))
      refreshing in
  let failed := ListScreen.settleLoad 0 (Rejected message) refreshing in
  (ListScreen.isRefreshing refreshing = true
   /\ ListScreen.inFlight refreshing
      = [{| ListScreen.isRefresh := true; ListScreen.offset := 0 |}])
  /\ (ListScreen.pokemonList answered = take ListScreen.ITEMS_PER_PAGE all
      /\ ListScreen.isLoading answered = false
      /\ ListScreen.isRefreshing answered = false
      /\ ListScreen.error answered = None
      /\ ListScreen.inFlight answered = [])
  /\ (ListScreen.pokemonList failed = ListScreen.pokemonList s
      /\ ListScreen.nextUrl failed = ListScreen.nextUrl s
      /\ ListScreen.isLoading failed = false
      /\ ListScreen.isRefreshing failed = false
      /\ ListScreen.error failed
         = Some (ListScreen.failureMessage message)
      /\ ListScreen.inFlight failed = []).
Proof.
  cbv zeta.
  unfold ListScreen.handleRefresh, ListScreen.loadPokemonList,
    ListScreen.settleLoad; simpl.
  rewrite Hquiet. simpl. repeat split.
Qed.

(** A second page on screen, then a refresh. *)
Lemma X21_refresh_replaces_failure_keeps_after_two_pages :
  let all :=
    map (fun i =>
           {| ListScreen.name := Api.numberToString (Z.of_nat i);
              ListScreen.url := Api.getPokemonByIdUrl (Z.of_nat i) |})
      (seq 1 45) in
  let s :=
    ListScreen.run all
      [ListScreen.Answered 0; ListScreen.EndReached; ListScreen.Answered 0]
      ListScreen.mounted in
  ListScreen.inFlight s = []
  /\ length (ListScreen.pokemonList s) = 40%nat
  /\ length
       (ListScreen.pokemonList
          (ListScreen.settleLoad 0
             (Resolved
                (ListScreen.serve all
                   {| ListScreen.isRefresh := true;
                      ListScreen.offset := 0 |}))
             (ListScreen.handleRefresh s))) = 20%nat.
Proof.
  cbv zeta.
  set (all :=
    map (fun i =>
           {| ListScreen.name := Api.numberToString (Z.of_nat i);
              ListScreen.url := Api.getPokemonByIdUrl (Z.of_nat i) |})
      (seq 1 45)).
  set (s :=
    ListScreen.run all
      [ListScreen.Answered 0; ListScreen.EndReached; ListScreen.Answered 0]
      ListScreen.mounted).
  assert (Hquiet : ListScreen.inFlight s = []) by (vm_compute; reflexivity).
  split; [exact Hquiet |]. split; [vm_compute; reflexivity |].
  pose proof (X21_refresh_replaces_failure_keeps all s None Hquiet)
    as (_ & (Hfirst & _) & _).
  rewrite Hfirst. vm_compute. reflexivity.
Defined.
